(** * HWP text extraction: normalizer, encoding detector, strategy orchestrator

    A shallow embedding of [server/services/origin/hwp_extractor.py].

    Python [str] values are lists of Unicode code points, [bytes] values
    are lists of byte values, both over [Z].  What the module takes from
    the Python runtime and from third-party packages (the Unicode
    character database, the codecs, the file system, [zipfile], [hwp5],
    [lxml], [hwp_extract]) is not part of the module: it enters the
    development as records of functions, and every theorem holds for
    all of them. *)

From Stdlib Require Import String Ascii ZArith List Bool Lia QArith.
From Stdlib Require Import Permutation Sorted Lqa Qpower.
Import ListNotations.
Open Scope Z_scope.

(** ** Strings and bytes *)

Definition pystr := list Z.
Definition pybytes := list Z.

(** An ASCII literal as a list of code points. *)
Fixpoint str_of (s : string) : pystr :=
  match s with
  | EmptyString => []
  | String a s' => Z.of_nat (nat_of_ascii a) :: str_of s'
  end.

Definition in_range (lo hi c : Z) : bool := (lo <=? c) && (c <=? hi).

Definition LF : Z := 0x0A.
Definition CR : Z := 0x0D.
Definition SP : Z := 0x20.

(** ** The part of the Unicode database the module consults

    [str.isspace], the [\s] class of [re] on [str] patterns and
    [str.strip()] all use the interpreter's one whitespace test, whose
    members are a short fixed list; it is written out.  The other
    predicates are large tables and stay abstract. *)

Definition isspace (c : Z) : bool :=
  in_range 0x09 0x0D c || in_range 0x1C 0x20 c || (c =? 0x85) || (c =? 0xA0)
  || (c =? 0x1680) || in_range 0x2000 0x200A c || (c =? 0x2028)
  || (c =? 0x2029) || (c =? 0x202F) || (c =? 0x205F) || (c =? 0x3000).

Record UnicodeData := {
  isprintable : Z -> bool;      (* str.isprintable on one character *)
  isalpha : Z -> bool;          (* str.isalpha *)
  isalnum : Z -> bool;          (* str.isalnum *)
  category_LN : Z -> bool;      (* unicodedata.category(ch) starts with L or N *)
  lower : pystr -> pystr        (* str.lower *)
}.

(** ** normalize_text *)

Definition is_hangul (c : Z) : bool := in_range 0xAC00 0xD7A3 c.
Definition is_digit (c : Z) : bool := in_range 0x30 0x39 c.
Definition is_latin (c : Z) : bool := in_range 0x41 0x5A c || in_range 0x61 0x7A c.

(** [raw.replace("\r\n", "\n")] *)
Fixpoint replace_crlf (s : pystr) : pystr :=
  match s with
  | [] => []
  | c :: t =>
      match t with
      | d :: t' =>
          if (c =? CR) && (d =? LF) then LF :: replace_crlf t'
          else c :: replace_crlf t
      | [] => [c]
      end
  end.

(** [.replace("\r", "\n")] *)
Definition replace_cr (s : pystr) : pystr :=
  map (fun c => if c =? CR then LF else c) s.

(** [cleaned.replace] of U+0000 by the empty string. *)
Definition remove_nul (s : pystr) : pystr :=
  filter (fun c => negb (c =? 0)) s.

(** The class [[\x00-\x08\x0b\x0c\x0e-\x1f]]. *)
Definition is_control (c : Z) : bool :=
  in_range 0x00 0x08 c || (c =? 0x0B) || (c =? 0x0C) || in_range 0x0E 0x1F c.

Definition remove_control (s : pystr) : pystr :=
  filter (fun c => negb (is_control c)) s.

(** [re.sub(r"\n{3,}", "\n\n", cleaned)]: [k] counts the newlines
    already kept from the run being read.  A run of one or two
    newlines is kept, a longer one is cut to two. *)
Fixpoint collapse_newlines_from (k : nat) (s : pystr) : pystr :=
  match s with
  | [] => []
  | c :: t =>
      if c =? LF then
        match k with
        | S (S _) => collapse_newlines_from k t
        | _ => c :: collapse_newlines_from (S k) t
        end
      else c :: collapse_newlines_from 0 t
  end.

Definition collapse_newlines (s : pystr) : pystr := collapse_newlines_from 0 s.

Definition clean (raw : pystr) : pystr :=
  collapse_newlines (remove_control (remove_nul (replace_cr (replace_crlf raw)))).

(** The members of the set [punctuation], in the order of its literal:
    . , ! ? ; : ' (double quote) ( ) [ ] { } < > - (en dash) (em dash)
    (ellipsis) % & / + (bullet) | # *)
Definition punctuation : list Z :=
  [0x2E; 0x2C; 0x21; 0x3F; 0x3B; 0x3A; 0x27; 0x22; 0x28; 0x29; 0x5B; 0x5D;
   0x7B; 0x7D; 0x3C; 0x3E; 0x2D; 0x2013; 0x2014; 0x2026; 0x25; 0x26; 0x2F;
   0x2B; 0x2022; 0x7C; 0x23].

Definition mem (c : Z) (l : list Z) : bool := existsb (Z.eqb c) l.

Definition is_allowed_char (u : UnicodeData) (c : Z) : bool :=
  if isspace c then true
  else if mem c punctuation then true
  else if in_range 0x30 0x39 c then true
  else if in_range 0x41 0x5A c || in_range 0x61 0x7A c then true
  else if in_range 0xAC00 0xD7A3 c then true
  else if in_range 0x1100 0x11FF c || in_range 0x3130 0x318F c then true
  else if in_range 0x4E00 0x9FFF c || in_range 0x3400 0x4DBF c then true
  else if in_range 0x3000 0x303F c then true
  else if in_range 0x2010 0x205E c then true
  else category_LN u c.

(** [cleaned.split("\n")] *)
Fixpoint split_lines (s : pystr) : list pystr :=
  match s with
  | [] => [[]]
  | c :: t =>
      if c =? LF then [] :: split_lines t
      else match split_lines t with
           | l :: ls => (c :: l) :: ls
           | [] => [[c]]
           end
  end.

(** [re.sub(r"\s+", " ", line)]: [in_ws] tells that the character before
    was whitespace, so the run has its space already. *)
Fixpoint collapse_ws_from (in_ws : bool) (s : pystr) : pystr :=
  match s with
  | [] => []
  | c :: t =>
      if isspace c then
        if in_ws then collapse_ws_from true t
        else SP :: collapse_ws_from true t
      else c :: collapse_ws_from false t
  end.

Definition collapse_ws (s : pystr) : pystr := collapse_ws_from false s.

(** [str.strip()] *)
Fixpoint lstrip (s : pystr) : pystr :=
  match s with
  | [] => []
  | c :: t => if isspace c then lstrip t else s
  end.

Fixpoint rstrip (s : pystr) : pystr :=
  match s with
  | [] => []
  | c :: t =>
      match rstrip t with
      | [] => if isspace c then [] else [c]
      | t' => c :: t'
      end
  end.

Definition strip (s : pystr) : pystr := rstrip (lstrip s).

(** The two classes of the span pattern [start][cont]*, where [start] is the class of
    U+AC00..U+D7A3, A-Z, a-z and 0-9, and [cont] adds to it [\s] and the
    characters . , ! ? U+2026 ( ) -. *)
Definition span_start (c : Z) : bool := is_hangul c || is_latin c || is_digit c.

Definition span_punct : list Z := [0x2E; 0x2C; 0x21; 0x3F; 0x2026; 0x28; 0x29; 0x2D].

Definition span_cont (c : Z) : bool :=
  is_hangul c || is_latin c || is_digit c || isspace c || mem c span_punct.

(** The longest prefix within the second class. *)
Fixpoint take_cont (s : pystr) : pystr :=
  match s with
  | [] => []
  | c :: t => if span_cont c then c :: take_cont t else []
  end.

(** [re.findall(pattern, line)]: the leftmost matches, each as long as
    it can be, none overlapping.  [findall_spans] looks for the start of
    a match; [after_span] reads on to the end of the match just started
    and resumes the search there. *)
Fixpoint findall_spans (s : pystr) : list pystr :=
  match s with
  | [] => []
  | c :: t =>
      if span_start c then (c :: take_cont t) :: after_span t
      else findall_spans t
  end
with after_span (s : pystr) : list pystr :=
  match s with
  | [] => []
  | c :: t =>
      if span_cont c then after_span t
      else if span_start c then (c :: take_cont t) :: after_span t
      else findall_spans t
  end.

(** [max(spans, key=len)] keeps the first of the longest. *)
Fixpoint longest_from (best : pystr) (l : list pystr) : pystr :=
  match l with
  | [] => best
  | x :: t =>
      if (Z.of_nat (length best) <? Z.of_nat (length x)) then longest_from x t
      else longest_from best t
  end.

Definition count (p : Z -> bool) (s : pystr) : Z :=
  Z.of_nat (length (filter p s)).

(** The quality gate on a span.  The source compares the float
    [hangul_chars / alnum_chars] with [0.2]; for counts below [2^50]
    the correctly rounded quotient is below the double [0.2] exactly
    when [5 * hangul_chars < alnum_chars]. *)
Definition passes_gate (u : UnicodeData) (span : pystr) : bool :=
  let hangul_chars := count is_hangul span in
  let alnum_chars := count (isalnum u) span in
  if alnum_chars =? 0 then false
  else if (5 * hangul_chars <? alnum_chars) && negb (existsb is_latin span) then false
  else true.

(** The body of the loop over lines, up to the quality gate: the span
    the gate is asked about, [None] where the source says [continue]
    before it. *)
Definition best_span (u : UnicodeData) (raw_line : pystr) : option pystr :=
  let filtered_line := strip (collapse_ws (filter (is_allowed_char u) raw_line)) in
  match filtered_line with
  | [] => None
  | _ =>
      match findall_spans filtered_line with
      | [] => None
      | first :: others =>
          match strip (longest_from first others) with
          | [] => None
          | span => Some span
          end
      end
  end.

(** The whole body: [None] where the source says [continue], [Some span]
    where it appends. *)
Definition sanitize_line (u : UnicodeData) (raw_line : pystr) : option pystr :=
  match best_span u raw_line with
  | None => None
  | Some span => if passes_gate u span then Some span else None
  end.

Fixpoint sanitized_lines (u : UnicodeData) (ls : list pystr) : list pystr :=
  match ls with
  | [] => []
  | l :: ls' =>
      match sanitize_line u l with
      | Some span => span :: sanitized_lines u ls'
      | None => sanitized_lines u ls'
      end
  end.

(** ["\n".join(lines)] *)
Fixpoint join_lines (ls : list pystr) : pystr :=
  match ls with
  | [] => []
  | l :: ls' =>
      match ls' with
      | [] => l
      | _ => l ++ LF :: join_lines ls'
      end
  end.

Definition normalize_text (u : UnicodeData) (raw : pystr) : pystr :=
  join_lines (sanitized_lines u (split_lines (clean raw))).

(** ** smart_decode *)

Inductive encoding := UTF_16_LE | UTF_16_BE | UTF_16 | CP949 | EUC_KR | UTF_8.

(** The [errors] argument of [bytes.decode]; the default is strict. *)
Inductive error_mode := Strict | Replace.

(** [bytes.decode]: [None] when it raises. *)
Definition Codecs := encoding -> error_mode -> pybytes -> option pystr.

Definition Qltb (a b : Q) : bool := (Qnum a * QDen b <? Qnum b * QDen a)%Z.

(** *** Python floats

    A float is a binary64 number; the finite ones are rationals, and a
    float is written here as the rational it is.  Python rounds the
    exact result of a literal, of [int / int], of [*] and of [+] to the
    nearest binary64 number, to the one with an even significand when
    two are as near ([round_float]); comparisons of floats compare the
    rationals.  The numbers of this module lie between -1 and 2, so
    the overflow to infinity has no part in it. *)

(** [2^k] for an integer [k]. *)
Definition pow2 (k : Z) : Q :=
  if 0 <=? k then inject_Z (2 ^ k) else 1 # Z.to_pos (2 ^ (- k)).

(** For [x > 0], the [e] with [2^e <= x < 2^(e+1)]. *)
Definition float_exponent (x : Q) : Z :=
  let e0 := Z.log2 (Qnum x) - Z.log2 (QDen x) in
  if Qltb x (pow2 e0) then e0 - 1 else e0.

(** The integer nearest to [m >= 0], the even one of two at the same
    distance. *)
Definition nearest_even (m : Q) : Z :=
  let q := Qnum m / QDen m in
  let r := Qnum m mod QDen m in
  match 2 * r ?= QDen m with
  | Lt => q
  | Gt => q + 1
  | Eq => if Z.even q then q else q + 1
  end.

(** For [x > 0]: the significand has 53 bits, and the spacing is never
    below [2^-1074], that of the subnormal numbers. *)
Definition round_positive (x : Q) : Q :=
  let k := Z.max (float_exponent x - 52) (- 1074) in
  inject_Z (nearest_even (x * pow2 (- k))) * pow2 k.

Definition round_float (x : Q) : Q :=
  match Qnum x with
  | Z0 => 0
  | Zpos _ => round_positive x
  | Zneg _ => - round_positive (- x)
  end.

(** The float literals of [smart_decode]. *)
Definition float_0_4 : Q := round_float (4 # 10).
Definition float_1_2 : Q := round_float (12 # 10).
Definition float_0_9 : Q := round_float (9 # 10).

(** [a * b] and [a + b] on floats. *)
Definition fmul (a b : Q) : Q := round_float (a * b).
Definition fadd (a b : Q) : Q := round_float (a + b).

(** [a / max(1, b)] on [int]: the quotient, correctly rounded. *)
Definition ratio (a b : Z) : Q := round_float (a # Z.to_pos (Z.max 1 b)).

Definition printable_ratio (u : UnicodeData) (candidate : pystr) : Q :=
  match candidate with
  | [] => 0
  | _ =>
      ratio (count (fun ch => isprintable u ch || mem ch [LF; 0x09]) candidate)
            (Z.of_nat (length candidate))
  end.

Definition hangul_ratio (u : UnicodeData) (candidate : pystr) : Q :=
  match candidate with
  | [] => 0
  | _ => ratio (count is_hangul candidate) (count (isalpha u) candidate)
  end.

(** [_printable_ratio(txt) + 0.4 * _hangul_ratio(txt)] *)
Definition score_text (u : UnicodeData) (txt : pystr) : Q :=
  fadd (printable_ratio u txt) (fmul float_0_4 (hangul_ratio u txt)).

(** The state of a scoring pass: the best text and its score, and the
    texts decoded and scored so far (kept for the statements only, the
    source does not store them). *)
Record scan_state := {
  best_txt : pystr;
  best_score : Q;
  attempted : list pystr
}.

(** A pass ends with [return txt] or falls out of the loop. *)
Inductive scan_result :=
| Returned (txt : pystr) (tried : list pystr)
| Exhausted (st : scan_state).

Section Scoring.

Variable score : pystr -> Q.
Variable decode : encoding * error_mode -> option pystr.

(** [for enc, kw in candidates: ...] *)
Fixpoint scan (candidates : list (encoding * error_mode)) (st : scan_state)
  : scan_result :=
  match candidates with
  | [] => Exhausted st
  | cand :: rest =>
      match decode cand with
      | None => scan rest st
      | Some txt =>
          let sc := score txt in
          let tried := attempted st ++ [txt] in
          let st' :=
            if Qltb (best_score st) sc
            then {| best_txt := txt; best_score := sc; attempted := tried |}
            else {| best_txt := best_txt st; best_score := best_score st;
                    attempted := tried |} in
          if Qltb float_1_2 sc then Returned txt tried else scan rest st'
      end
  end.

End Scoring.

(** [raw[::2]] *)
Fixpoint every_other (s : pybytes) : pybytes :=
  match s with
  | [] => []
  | a :: t =>
      a :: match t with
           | [] => []
           | _ :: t' => every_other t'
           end
  end.

(** [sample.count(b"\x00") > len(sample) * 0.2]; the sample has at most
    4096 bytes, where the float product compares with the count as
    [len(sample) / 5] does. *)
Definition looks_utf16 (raw : pybytes) : bool :=
  let sample := firstn 4096 raw in
  Z.of_nat (length sample) <? 5 * count (Z.eqb 0) sample.

Definition wide_candidates : list (encoding * error_mode) :=
  [(UTF_16_LE, Strict); (UTF_16_BE, Strict); (UTF_16, Replace)].

Definition legacy_candidates : list (encoding * error_mode) :=
  [(CP949, Replace); (EUC_KR, Replace); (UTF_8, Replace)].

Definition candidates (raw : pybytes) : list (encoding * error_mode) :=
  (if looks_utf16 raw then wide_candidates else []) ++ legacy_candidates.

(** The function with any scoring in place of [score_text]; its result
    comes with the texts that were decoded and scored during the call. *)
Definition smart_decode_with (score : pystr -> Q) (cd : Codecs) (raw : pybytes)
  : pystr * list pystr :=
  let start := {| best_txt := []; best_score := - (1); attempted := [] |} in
  match scan score (fun c => cd (fst c) (snd c) raw) (candidates raw) start with
  | Returned txt tried => (txt, tried)
  | Exhausted st =>
      if looks_utf16 raw && Qltb (best_score st) float_0_9
         && (4 <=? Z.of_nat (length raw))
      then
        let narrowed := every_other raw in
        match scan score (fun c => cd (fst c) (snd c) narrowed)
                   legacy_candidates st with
        | Returned txt tried => (txt, tried)
        | Exhausted st' => (best_txt st', attempted st')
        end
      else (best_txt st, attempted st)
  end.

Definition smart_decode_trace (u : UnicodeData) (cd : Codecs) (raw : pybytes)
  : pystr * list pystr :=
  smart_decode_with (score_text u) cd raw.

Definition smart_decode (u : UnicodeData) (cd : Codecs) (raw : pybytes) : pystr :=
  fst (smart_decode_trace u cd raw).

(** ** Exceptions and the collaborators *)

Inductive exn_class :=
| RuntimeError | ValueError | OSError | BadZipFile | UnicodeDecodeError
| ParseError | InvalidHwp5FileError
| HWPExtractorError | HWPExtractorNoPasswordError
| OtherException.

(** An exception (a subclass of [Exception]): its class and what
    [str()] gives for it; [ExnFrom] is one raised with [raise ... from
    cause], which sets its [__cause__]. *)
Inductive exn :=
| Exn (cls : exn_class) (msg : string)
| ExnFrom (cls : exn_class) (msg : string) (cause : exn).

Definition exn_cls (e : exn) : exn_class :=
  match e with
  | Exn c _ | ExnFrom c _ _ => c
  end.

Definition exn_str (e : exn) : string :=
  match e with
  | Exn _ m | ExnFrom _ m _ => m
  end.

Definition exn_cause (e : exn) : option exn :=
  match e with
  | Exn _ _ => None
  | ExnFrom _ _ c => Some c
  end.

(** A call either returns or raises. *)
Inductive result (A : Type) :=
| Ok (a : A)
| Raise (e : exn).
Arguments Ok {A} a.
Arguments Raise {A} e.

Definition bind {A B} (m : result A) (k : A -> result B) : result B :=
  match m with
  | Ok a => k a
  | Raise e => Raise e
  end.

Notation "x <- m ;; k" := (bind m (fun x => k))
  (at level 61, m at next level, right associativity).

(** [try: body / except Exception: handler] *)
Definition try_except {A} (body : result A) (handler : exn -> result A) : result A :=
  match body with
  | Ok a => Ok a
  | Raise e => handler e
  end.

Fixpoint mapM {A B} (f : A -> result B) (l : list A) : result (list B) :=
  match l with
  | [] => Ok []
  | a :: t => b <- f a ;; bs <- mapM f t ;; Ok (b :: bs)
  end.

(** An open [zipfile.ZipFile]. *)
Record archive := {
  namelist : list pystr;
  read_entry : pystr -> result pybytes     (* archive.open(name).read() *)
}.

(** An item of [HWPExtractor.extract_files()]. *)
Record stream := {
  stream_name : pystr;
  stream_data : pybytes
}.

(** The file system and the packages behind the strategies.
    [pyhwp_import] is the outcome of the guarded import at the top of
    the module: [None] when it succeeded, the [ImportError] otherwise. *)
Record World := {
  read_file : string -> result pybytes;               (* open(path, "rb"), then read *)
  ZipFile : string -> result archive;
  pyhwp_import : option exn;
  transform_hwp5_to_text : string -> result pybytes;  (* run_transform(TextTransform()...) *)
  transform_hwp5_to_html : string -> result pybytes;  (* run_transform(HTMLTransform()...) *)
  text_content : pystr -> result pystr;               (* lxml_html.fromstring(..).text_content() *)
  extract_files : pybytes -> result (list stream)
    (* HWPExtractor(data=data, raise_pw_error=False).extract_files(), read to its end *)
}.

Definition HAS_PYHWP (w : World) : bool :=
  match pyhwp_import w with
  | None => true
  | Some _ => false
  end.

Definition PYHWP_IMPORT_ERROR (w : World) : option exn := pyhwp_import w.

(** ** try_hwpx *)

Fixpoint startswith (s prefix : pystr) : bool :=
  match prefix, s with
  | [], _ => true
  | p :: prefix', c :: s' => (c =? p) && startswith s' prefix'
  | _ :: _, [] => false
  end.

Definition endswith (s suffix : pystr) : bool :=
  startswith (rev s) (rev suffix).

Fixpoint pystr_eqb (a b : pystr) : bool :=
  match a, b with
  | [], [] => true
  | x :: a', y :: b' => (x =? y) && pystr_eqb a' b'
  | _, _ => false
  end.

(** The order of [sorted] on [str]: by code point, a prefix first. *)
Fixpoint pystr_leb (a b : pystr) : bool :=
  match a, b with
  | [], _ => true
  | _ :: _, [] => false
  | x :: a', y :: b' => (x <? y) || ((x =? y) && pystr_leb a' b')
  end.

Fixpoint insert_sorted (x : pystr) (l : list pystr) : list pystr :=
  match l with
  | [] => [x]
  | y :: t => if pystr_leb x y then x :: l else y :: insert_sorted x t
  end.

Definition sorted (l : list pystr) : list pystr :=
  fold_right insert_sorted [] l.

(** [re.sub(r"<[^>]+>", " ", xml_text)].  A match starts at a [<] that
    is followed by at least one character other than [>] and, after
    those, by a [>]; [tag_closes] tells whether the text after a [<] is
    of this kind, and [in_tag] that a match is being skipped. *)
Definition LT : Z := 0x3C.
Definition GT : Z := 0x3E.

Definition tag_closes (rest : pystr) : bool :=
  match rest with
  | [] => false
  | c :: _ => negb (c =? GT) && existsb (Z.eqb GT) rest
  end.

Fixpoint strip_tags_from (in_tag : bool) (s : pystr) : pystr :=
  match s with
  | [] => []
  | c :: t =>
      if in_tag then
        if c =? GT then strip_tags_from false t else strip_tags_from true t
      else if (c =? LT) && tag_closes t then SP :: strip_tags_from true t
      else c :: strip_tags_from false t
  end.

Definition strip_tags (xml_text : pystr) : pystr := strip_tags_from false xml_text.

Definition zip_signature : pybytes := [0x50; 0x4B; 0x03; 0x04].

Definition is_section_entry (u : UnicodeData) (name : pystr) : bool :=
  startswith (lower u name) (str_of "contents/section")
  && endswith (lower u name) (str_of ".xml").

Definition section_entries (u : UnicodeData) (a : archive) : list pystr :=
  filter (is_section_entry u) (namelist a).

Definition decode_error : exn := Exn UnicodeDecodeError "codec can't decode".

(** [try: xml_bytes.decode("utf-8") / except UnicodeDecodeError:
    xml_bytes.decode("utf-8", errors="replace")] *)
Definition decode_xml (cd : Codecs) (xml_bytes : pybytes) : result pystr :=
  match cd UTF_8 Strict xml_bytes with
  | Some xml_text => Ok xml_text
  | None =>
      match cd UTF_8 Replace xml_bytes with
      | Some xml_text => Ok xml_text
      | None => Raise decode_error
      end
  end.

Definition read_section (cd : Codecs) (a : archive) (name : pystr) : result pystr :=
  xml_bytes <- read_entry a name ;;
  xml_text <- decode_xml cd xml_bytes ;;
  Ok (strip_tags xml_text).

(** What stands inside the [try] of [try_hwpx]. *)
Definition try_hwpx_body (w : World) (u : UnicodeData) (cd : Codecs) (path : string)
  : result (option pystr) :=
  data <- read_file w path ;;
  let signature := firstn 4 data in
  if negb (pystr_eqb signature zip_signature) then Ok None
  else
    a <- ZipFile w path ;;
    match section_entries u a with
    | [] => Ok None
    | names =>
        texts <- mapM (read_section cd a) (sorted names) ;;
        Ok (Some (normalize_text u (join_lines texts)))
    end.

Definition try_hwpx (w : World) (u : UnicodeData) (cd : Codecs) (path : string)
  : result (option pystr) :=
  try_except (try_hwpx_body w u cd path) (fun _ => Ok None).

(** ** extract_with_pyhwp *)

(** [not raw.strip()] on [bytes]: nothing but ASCII whitespace. *)
Definition bytes_blank (raw : pybytes) : bool :=
  forallb (fun b => mem b [0x20; 0x09; 0x0A; 0x0D; 0x0B; 0x0C]) raw.

Definition decode_replace (cd : Codecs) (raw : pybytes) : result pystr :=
  match cd UTF_8 Replace raw with
  | Some txt => Ok txt
  | None => Raise decode_error
  end.

Definition truthy (s : pystr) : bool :=
  match s with
  | [] => false
  | _ => true
  end.

Definition after_normalization (u : UnicodeData) (text : pystr)
  : option pystr * option exn :=
  let normalized := normalize_text u text in
  if truthy normalized then (Some normalized, None)
  else (None, Some (Exn ValueError "pyhwp output was empty after normalization")).

(** What stands inside the [try] of [extract_with_pyhwp]. *)
Definition extract_with_pyhwp_body (w : World) (u : UnicodeData) (cd : Codecs)
  (path : string) : result (option pystr * option exn) :=
  raw <- transform_hwp5_to_text w path ;;
  if bytes_blank raw then
    raw' <- transform_hwp5_to_html w path ;;
    if bytes_blank raw' then
      Ok (None, Some (Exn ValueError "pyhwp produced no output"))
    else
      html_text <- decode_replace cd raw' ;;
      text <- text_content w html_text ;;
      Ok (after_normalization u text)
  else
    text <- decode_replace cd raw ;;
    Ok (after_normalization u text).

Definition extract_with_pyhwp (w : World) (u : UnicodeData) (cd : Codecs)
  (path : string) : result (option pystr * option exn) :=
  if negb (HAS_PYHWP w) then Ok (None, PYHWP_IMPORT_ERROR w)
  else
    try_except (extract_with_pyhwp_body w u cd path)
               (fun err => Ok (None, Some err)).

(** ** extract_with_hwp_extract *)

Definition is_body_stream (u : UnicodeData) (s : stream) : bool :=
  let name := lower u (stream_name s) in
  startswith name (str_of "bodytext/") || startswith name (str_of "viewtext/").

(** The loop over the streams; a stream adds at most one fragment. *)
Fixpoint text_fragments (u : UnicodeData) (cd : Codecs) (streams : list stream)
  : list pystr :=
  match streams with
  | [] => []
  | s :: rest =>
      if negb (is_body_stream u s) then text_fragments u cd rest
      else
        let decoded := strip (smart_decode u cd (stream_data s)) in
        if negb (truthy decoded) then text_fragments u cd rest
        else
          let normalized := normalize_text u decoded in
          if truthy normalized then normalized :: text_fragments u cd rest
          else text_fragments u cd rest
  end.

(** ["\n\n".join(fragments)] *)
Fixpoint join_blank (ls : list pystr) : pystr :=
  match ls with
  | [] => []
  | l :: ls' =>
      match ls' with
      | [] => l
      | _ => l ++ LF :: LF :: join_blank ls'
      end
  end.

Definition no_text_message : string := "No textual content found in HWP file."%string.

Definition no_text_error : exn := Exn RuntimeError no_text_message.

Definition extract_with_hwp_extract (w : World) (u : UnicodeData) (cd : Codecs)
  (path : string) : result pystr :=
  data <- read_file w path ;;
  streams <- extract_files w data ;;
  match text_fragments u cd streams with
  | [] => Raise no_text_error
  | fragments => Ok (join_blank fragments)
  end.

(** ** extract_text *)

(** The strategy functions [extract_text] calls, in the order of the
    calls (kept for the statements only). *)
Inductive strategy_call := Call_try_hwpx | Call_pyhwp | Call_hwp_extract.

Definition truthy_opt (t : option pystr) : bool :=
  match t with
  | Some s => truthy s
  | None => false
  end.

Definition pyhwp_suffix (pyhwp_error : option exn) : string :=
  match pyhwp_error with
  | Some e => (" (pyhwp failed: " ++ exn_str e ++ ")")%string
  | None => EmptyString
  end.

(** The last block of [extract_text]. *)
Definition fallback (w : World) (u : UnicodeData) (cd : Codecs) (path : string)
  (pyhwp_error : option exn) : result (pystr * string) :=
  try_except
    (fallback_text <- extract_with_hwp_extract w u cd path ;;
     let label :=
       if negb (HAS_PYHWP w)
          && match PYHWP_IMPORT_ERROR w with Some _ => true | None => false end
       then ("smart_decode" ++ " (pyhwp missing)")%string
       else "smart_decode"%string in
     Ok (fallback_text, label))
    (fun err =>
       Raise (ExnFrom RuntimeError (exn_str err ++ pyhwp_suffix pyhwp_error)%string err)).

Definition extract_text (w : World) (u : UnicodeData) (cd : Codecs) (path : string)
  : list strategy_call * result (pystr * string) :=
  match try_hwpx w u cd path with
  | Raise e => ([Call_try_hwpx], Raise e)
  | Ok hwpx_text =>
      match hwpx_text with
      | Some (c :: t) => ([Call_try_hwpx], Ok (c :: t, "hwpx"%string))
      | _ =>
          if HAS_PYHWP w then
            match extract_with_pyhwp w u cd path with
            | Raise e => ([Call_try_hwpx; Call_pyhwp], Raise e)
            | Ok (pyhwp_text, pyhwp_error) =>
                match pyhwp_text with
                | Some (c :: t) => ([Call_try_hwpx; Call_pyhwp], Ok (c :: t, "pyhwp"%string))
                | _ =>
                    ([Call_try_hwpx; Call_pyhwp; Call_hwp_extract],
                     fallback w u cd path pyhwp_error)
                end
            end
          else
            ([Call_try_hwpx; Call_hwp_extract], fallback w u cd path None)
      end
  end.

(** ** Sample data for running the definitions

    A small Unicode database, a small codec table and three documents.
    The theorems are proved for every database, codec table and world;
    the samples serve to evaluate the definitions at concrete inputs. *)

(** A database in which only Basic Latin, the Hangul syllables and
    U+FFFD are assigned. *)
Definition sample_unicode : UnicodeData := {|
  isprintable := fun c => in_range 0x20 0x7E c || is_hangul c || (c =? 0xFFFD);
  isalpha := fun c => is_latin c || is_hangul c;
  isalnum := fun c => is_latin c || is_hangul c || is_digit c;
  category_LN := fun c => is_latin c || is_hangul c || is_digit c;
  lower := map (fun c => if in_range 0x41 0x5A c then c + 0x20 else c)
|}.

Definition REPLACEMENT : Z := 0xFFFD.

Definition on_error (mode : error_mode) (rest : option pystr) : option pystr :=
  match mode with
  | Strict => None
  | Replace => option_map (cons REPLACEMENT) rest
  end.

(** UTF-8: the character at the head of [s] (or [None] for an ill-formed
    sequence) and the number of bytes it takes. *)
Definition utf8_step (s : pybytes) : option Z * nat :=
  let cont b := in_range 0x80 0xBF b in
  match s with
  | [] => (None, 1%nat)
  | b0 :: t =>
      if b0 <? 0x80 then (Some b0, 1%nat)
      else if in_range 0xC2 0xDF b0 then
        match t with
        | b1 :: _ =>
            if cont b1 then (Some ((b0 - 0xC0) * 64 + (b1 - 0x80)), 2%nat)
            else (None, 1%nat)
        | [] => (None, 1%nat)
        end
      else if in_range 0xE0 0xEF b0 then
        let lo := if b0 =? 0xE0 then 0xA0 else 0x80 in
        let hi := if b0 =? 0xED then 0x9F else 0xBF in
        match t with
        | b1 :: t1 =>
            if in_range lo hi b1 then
              match t1 with
              | b2 :: _ =>
                  if cont b2
                  then (Some ((b0 - 0xE0) * 4096 + (b1 - 0x80) * 64 + (b2 - 0x80)), 3%nat)
                  else (None, 2%nat)
              | [] => (None, 2%nat)
              end
            else (None, 1%nat)
        | [] => (None, 1%nat)
        end
      else if in_range 0xF0 0xF4 b0 then
        let lo := if b0 =? 0xF0 then 0x90 else 0x80 in
        let hi := if b0 =? 0xF4 then 0x8F else 0xBF in
        match t with
        | b1 :: t1 =>
            if in_range lo hi b1 then
              match t1 with
              | b2 :: t2 =>
                  if cont b2 then
                    match t2 with
                    | b3 :: _ =>
                        if cont b3
                        then (Some ((b0 - 0xF0) * 262144 + (b1 - 0x80) * 4096
                                    + (b2 - 0x80) * 64 + (b3 - 0x80)), 4%nat)
                        else (None, 3%nat)
                    | [] => (None, 3%nat)
                    end
                  else (None, 2%nat)
              | [] => (None, 2%nat)
              end
            else (None, 1%nat)
        | [] => (None, 1%nat)
        end
      else (None, 1%nat)
  end.

Fixpoint utf8_decode (fuel : nat) (mode : error_mode) (s : pybytes) : option pystr :=
  match fuel, s with
  | _, [] => Some []
  | O, _ => None
  | S fuel', _ =>
      match utf8_step s with
      | (Some c, n) => option_map (cons c) (utf8_decode fuel' mode (skipn n s))
      | (None, n) => on_error mode (utf8_decode fuel' mode (skipn n s))
      end
  end.

(** UTF-16: the 16-bit units, and whether a byte is left over. *)
Fixpoint utf16_units (little : bool) (s : pybytes) : list Z * bool :=
  match s with
  | [] => ([], false)
  | a :: t =>
      match t with
      | [] => ([], true)
      | b :: t' =>
          let (units, odd) := utf16_units little t' in
          ((if little then a + 256 * b else 256 * a + b) :: units, odd)
      end
  end.

Fixpoint utf16_chars (mode : error_mode) (units : list Z) : option pystr :=
  match units with
  | [] => Some []
  | x :: t =>
      if in_range 0xD800 0xDBFF x then
        match t with
        | y :: t' =>
            if in_range 0xDC00 0xDFFF y
            then option_map (cons (0x10000 + (x - 0xD800) * 1024 + (y - 0xDC00)))
                            (utf16_chars mode t')
            else on_error mode (utf16_chars mode t)
        | [] => on_error mode (Some [])
        end
      else if in_range 0xDC00 0xDFFF x then on_error mode (utf16_chars mode t)
      else option_map (cons x) (utf16_chars mode t)
  end.

Definition utf16_decode (little : bool) (mode : error_mode) (s : pybytes)
  : option pystr :=
  let (units, odd) := utf16_units little s in
  match utf16_chars mode units with
  | None => None
  | Some txt =>
      if odd then option_map (app txt) (on_error mode (Some []))
      else Some txt
  end.

(** UTF-16 with a byte-order mark, little-endian without one. *)
Definition utf16_bom_decode (mode : error_mode) (s : pybytes) : option pystr :=
  match s with
  | 0xFF :: 0xFE :: t => utf16_decode true mode t
  | 0xFE :: 0xFF :: t => utf16_decode false mode t
  | _ => utf16_decode true mode s
  end.

(** The two KS X 1001 codecs on ASCII bytes; their double-byte tables
    are not reproduced, and a byte from 0x80 on counts as undecodable. *)
Fixpoint ascii_decode (mode : error_mode) (s : pybytes) : option pystr :=
  match s with
  | [] => Some []
  | b :: t =>
      if b <? 0x80 then option_map (cons b) (ascii_decode mode t)
      else on_error mode (ascii_decode mode t)
  end.

Definition sample_codecs : Codecs :=
  fun enc mode raw =>
    match enc with
    | UTF_16_LE => utf16_decode true mode raw
    | UTF_16_BE => utf16_decode false mode raw
    | UTF_16 => utf16_bom_decode mode raw
    | CP949 | EUC_KR => ascii_decode mode raw
    | UTF_8 => utf8_decode (length raw) mode raw
    end.

Definition io_error : exn := Exn OSError "No such file or directory".

(** A world with one file, [path], and nothing else. *)
Definition one_file_world (path : string) (content : pybytes)
  (zip : result archive) (import : option exn)
  (hwp5 : result pybytes) (streams : result (list stream)) : World := {|
  read_file := fun p => if String.eqb p path then Ok content else Raise io_error;
  ZipFile := fun p => if String.eqb p path then zip else Raise io_error;
  pyhwp_import := import;
  transform_hwp5_to_text := fun _ => hwp5;
  transform_hwp5_to_html := fun _ => hwp5;
  text_content := fun html => Ok html;
  extract_files := fun _ => streams
|}.

(** UTF-8 for a paragraph element holding the five syllables
    U+C548 U+B155 U+D558 U+C138 U+C694. *)
Definition section0_xml : pybytes :=
  [0x3C; 0x70; 0x3E;
   0xEC; 0x95; 0x88; 0xEB; 0x85; 0x95; 0xED; 0x95; 0x98; 0xEC; 0x84; 0xB8;
   0xEC; 0x9A; 0x94;
   0x3C; 0x2F; 0x70; 0x3E].

Definition annyeong : pystr := [0xC548; 0xB155; 0xD558; 0xC138; 0xC694].

Definition hwpx_archive : archive := {|
  namelist := [str_of "mimetype"; str_of "Contents/Section0.xml"];
  read_entry := fun name =>
    if pystr_eqb name (str_of "Contents/Section0.xml") then Ok section0_xml
    else if pystr_eqb name (str_of "mimetype") then Ok (str_of "application/hwp+zip")
    else Raise (Exn OtherException "There is no item in the archive")
|}.

Definition not_hwp5 : exn := Exn InvalidHwp5FileError "Not an OLE2 Compound Binary File.".

(** A zip container with one section. *)
Definition hwpx_world : World :=
  one_file_world "doc.hwpx" (zip_signature ++ [0x14; 0x00; 0x00; 0x00])
    (Ok hwpx_archive) None (Raise not_hwp5)
    (Raise (Exn HWPExtractorError "Not an HWP file")).

Definition ole_header : pybytes := [0xD0; 0xCF; 0x11; 0xE0; 0xA1; 0xB1; 0x1A; 0xE1].

Definition bad_zip : exn := Exn BadZipFile "File is not a zip file".

(** A binary document whose streams hold no body text; the structured
    library is installed and fails on it. *)
Definition empty_world : World :=
  one_file_world "empty.hwp" ole_header (Raise bad_zip) None
    (Raise (Exn ParseError "unexpected end of stream"))
    (Ok [ {| stream_name := str_of "FileHeader"; stream_data := [0x48; 0x57; 0x50] |};
          {| stream_name := str_of "BodyText/Section0"; stream_data := [0x01; 0x02] |} ]).

(** A protected document opened without a password.  The extractor is
    built with [raise_pw_error=False]: it raises nothing and yields the
    streams it can read, here the header alone.  The structured library
    is not installed. *)
Definition protected_world : World :=
  one_file_world "secret.hwp" ole_header (Raise bad_zip)
    (Some (Exn OtherException "No module named 'hwp5'"))
    (Raise not_hwp5)
    (Ok [ {| stream_name := str_of "FileHeader"; stream_data := [0x48; 0x57; 0x50] |} ]).

(** A file that is no HWP document of either kind: the structured
    library is installed and refuses it, and so does the extractor. *)
Definition foreign_world : World :=
  one_file_world "notes.txt" (str_of "plain text") (Raise bad_zip) None
    (Raise not_hwp5) (Raise (Exn HWPExtractorError "Not an HWP file")).

Definition file_not_found : exn :=
  Exn OSError "[Errno 2] No such file or directory: 'missing.hwp'".

(** A world without the file asked for; the structured library is
    installed and fails to open it. *)
Definition missing_world : World := {|
  read_file := fun _ => Raise file_not_found;
  ZipFile := fun _ => Raise file_not_found;
  pyhwp_import := None;
  transform_hwp5_to_text := fun _ => Raise file_not_found;
  transform_hwp5_to_html := fun _ => Raise file_not_found;
  text_content := fun html => Ok html;
  extract_files := fun _ => Ok []
|}.

(** ** Predicates of the statements *)

Definition head_not_space (s : pystr) : bool :=
  match s with
  | [] => true
  | b :: _ => negb (isspace b)
  end.

(** Every whitespace character of [s] is one space that no whitespace
    follows: what [re.sub(r"\s+", " ", ...)] leaves. *)
Fixpoint single_spaced (s : pystr) : bool :=
  match s with
  | [] => true
  | a :: t =>
      (negb (isspace a) || ((a =? SP) && head_not_space t)) && single_spaced t
  end.

(** A line as [normalize_text] appends it. *)
Definition sanitized (u : UnicodeData) (l : pystr) : Prop :=
  (exists c r, l = c :: r /\ span_start c = true)
  /\ Forall (fun c => span_cont c = true) l
  /\ single_spaced l = true
  /\ rstrip l = l
  /\ passes_gate u l = true.

(** The alphabet of the span pattern once whitespace is one space, and
    the newline that joins the lines. *)
Definition span_alphabet (c : Z) : bool :=
  is_hangul c || is_latin c || is_digit c || (c =? SP) || (c =? LF)
  || mem c span_punct.

Definition line_ok (l : pystr) : Prop := l <> [] /\ Forall (fun c => c <> LF) l.

(** No newline is followed by a newline. *)
Fixpoint no_double_newline (s : pystr) : bool :=
  match s with
  | [] => true
  | a :: t =>
      negb ((a =? LF) && match t with b :: _ => b =? LF | [] => false end)
      && no_double_newline t
  end.

(** [s] has no run of [n] newlines. *)
Definition no_newline_run (n : nat) (s : pystr) : Prop :=
  forall pre post, s <> pre ++ repeat LF n ++ post.



(** A match of the span pattern inside [s]. *)
Definition span_of (s x : pystr) : Prop :=
  (exists c r, x = c :: r /\ span_start c = true /\ Forall (fun d => span_cont d = true) r)
  /\ exists pre post, s = pre ++ x ++ post.


(** The syllable U+D55C and its two bytes in UTF-16, little-endian. *)
Definition han_syllable : pystr := [0xD55C].
Definition han_utf16le : pybytes := [0x5C; 0xD5].

(** U+AC00, a space and U+B098, and their bytes in UTF-16, little-endian. *)
Definition ga_na : pystr := [0xAC00; SP; 0xB098].
Definition ga_na_utf16le : pybytes := [0x00; 0xAC; 0x20; 0x00; 0x98; 0xB0].

(** Four syllables and a control character: the printable share is
    4/5 and every letter is a Hangul syllable. *)
Definition tie_text : pystr := [0xD55C; 0xD55C; 0xD55C; 0xD55C; 0x01].

(** ** Further predicates of the statements *)

(** A text with every newline written as carriage return, newline, and
    with every newline written as a carriage return. *)
Definition to_crlf (s : pystr) : pystr :=
  flat_map (fun c => if c =? LF then [CR; LF] else [c]) s.

Definition to_cr (s : pystr) : pystr :=
  map (fun c => if c =? LF then CR else c) s.

(** The length of a join, one newline counted with every line. *)
Fixpoint lines_size (ls : list pystr) : nat :=
  match ls with
  | [] => O
  | l :: ls' => S (length l + lines_size ls')
  end.

(** No [<] of [s] opens a tag: none is followed by a character other
    than [>] and, later, by a [>]. *)
Fixpoint no_tag_left (s : pystr) : bool :=
  match s with
  | [] => true
  | c :: t => negb ((c =? LT) && tag_closes t) && no_tag_left t
  end.

(** The order of [sorted] as a relation. *)
Definition pystr_le (a b : pystr) : Prop := pystr_leb a b = true.

(** The container of the sample with its directory in another order. *)
Definition hwpx_archive_reordered : archive := {|
  namelist := [str_of "Contents/Section0.xml"; str_of "mimetype"];
  read_entry := read_entry hwpx_archive
|}.

Definition hwpx_world_reordered : World :=
  one_file_world "doc.hwpx" (zip_signature ++ [0x0A; 0x00; 0x08; 0x00; 0x08; 0x00])
    (Ok hwpx_archive_reordered) None (Raise not_hwp5)
    (Raise (Exn HWPExtractorError "Not an HWP file")).

(** Two reads of a file that [try_hwpx] cannot tell apart: both raise,
    or both give bytes with the same first four. *)
Definition same_signature (r1 r2 : result pybytes) : Prop :=
  match r1, r2 with
  | Ok d1, Ok d2 => firstn 4 d1 = firstn 4 d2
  | Raise _, Raise _ => True
  | _, _ => False
  end.

(** ** main *)

(** [str.encode("utf-8")] on one character: [None] where it raises,
    for a surrogate. *)
Definition utf8_encode_char (c : Z) : option pybytes :=
  if c <? 0x80 then Some [c]
  else if c <? 0x800 then Some [0xC0 + c / 64; 0x80 + c mod 64]
  else if in_range 0xD800 0xDFFF c then None
  else if c <? 0x10000 then
    Some [0xE0 + c / 4096; 0x80 + (c / 64) mod 64; 0x80 + c mod 64]
  else
    Some [0xF0 + c / 262144; 0x80 + (c / 4096) mod 64; 0x80 + (c / 64) mod 64;
          0x80 + c mod 64].

Fixpoint utf8_encode (s : pystr) : option pybytes :=
  match s with
  | [] => Some []
  | c :: t =>
      match utf8_encode_char c, utf8_encode t with
      | Some b, Some bs => Some (b ++ bs)
      | _, _ => None
      end
  end.

Definition encode_error : exn :=
  Exn OtherException "'utf-8' codec can't encode character: surrogates not allowed".

Definition newline : string := String (ascii_of_nat 10) EmptyString.

(** The [except] clause of [main] that takes an exception, by its class. *)
Inductive handler := Handle_no_password | Handle_extractor_error | Handle_exception.

Definition handler_of (err : exn) : handler :=
  match exn_cls err with
  | HWPExtractorNoPasswordError => Handle_no_password
  | HWPExtractorError => Handle_extractor_error
  | _ => Handle_exception
  end.

(** What a run of [main] leaves: the byte strings written to standard
    output, the messages written to standard error, the argument of
    [sys.exit] ([None] when [main] returns), and the [except] clause
    taken (kept for the statements only).  Writing to the two streams
    is taken to succeed. *)
Record process := {
  stdout : list pybytes;
  stderr : list string;
  exit_status : option Z;
  handled_by : option handler
}.

(** The three [except] clauses have the same body. *)
Definition main_failure (diagnostics : list string) (err : exn) : process :=
  match handler_of err with
  | Handle_no_password =>
      {| stdout := []; stderr := diagnostics ++ [(exn_str err ++ newline)%string];
         exit_status := Some 1; handled_by := Some Handle_no_password |}
  | Handle_extractor_error =>
      {| stdout := []; stderr := diagnostics ++ [(exn_str err ++ newline)%string];
         exit_status := Some 1; handled_by := Some Handle_extractor_error |}
  | Handle_exception =>
      {| stdout := []; stderr := diagnostics ++ [(exn_str err ++ newline)%string];
         exit_status := Some 1; handled_by := Some Handle_exception |}
  end.

(** [main], with [args] the list it works on ([argv], or [sys.argv[1:]]). *)
Definition main (w : World) (u : UnicodeData) (cd : Codecs) (args : list string)
  : process :=
  match args with
  | [] =>
      {| stdout := [];
         stderr := [("Usage: hwp_extractor.py <path-to-hwp>" ++ newline)%string];
         exit_status := Some 1; handled_by := None |}
  | path :: _ =>
      match snd (extract_text w u cd path) with
      | Ok (text, source) =>
          let diagnostic := ("Decoded using " ++ source ++ " path." ++ newline)%string in
          match utf8_encode text with
          | Some data =>
              {| stdout := [data]; stderr := [diagnostic];
                 exit_status := None; handled_by := None |}
          | None => main_failure [diagnostic] encode_error
          end
      | Raise err => main_failure [] err
      end
  end.

(** ** More sample documents *)

(** UTF-8 for the five syllables of [annyeong], then a newline. *)
Definition annyeong_utf8 : pybytes :=
  [0xEC; 0x95; 0x88; 0xEB; 0x85; 0x95; 0xED; 0x95; 0x98; 0xEC; 0x84; 0xB8;
   0xEC; 0x9A; 0x94; 0x0A].

(** A binary document the structured library turns into text. *)
Definition pyhwp_world : World :=
  one_file_world "plain.hwp" ole_header (Raise bad_zip) None
    (Ok annyeong_utf8) (Raise (Exn HWPExtractorError "Not an HWP file")).

(** A binary document with one body stream in UTF-16; the structured
    library is not installed. *)
Definition raw_world : World :=
  one_file_world "raw.hwp" ole_header (Raise bad_zip)
    (Some (Exn OtherException "No module named 'hwp5'"))
    (Raise not_hwp5)
    (Ok [ {| stream_name := str_of "FileHeader"; stream_data := [0x48; 0x57; 0x50] |};
          {| stream_name := str_of "BodyText/Section0"; stream_data := ga_na_utf16le |} ]).

(** The sample codecs with the three UTF-16 decoders failing. *)
Definition legacy_only_codecs : Codecs :=
  fun enc mode raw =>
    match enc with
    | UTF_16_LE | UTF_16_BE | UTF_16 => None
    | _ => sample_codecs enc mode raw
    end.

(** ** Markup *)

(** A tag as the pattern of [strip_tags] matches it: [<], a body of one
    or more characters other than [>], and [>]. *)
Definition tag (body : pystr) : pystr := LT :: body ++ [GT].

Definition tag_body (body : pystr) : Prop :=
  body <> [] /\ Forall (fun c => c <> GT) body.

(** The container of the sample with a second section whose data
    cannot be read. *)
Definition damaged_archive : archive := {|
  namelist := [str_of "mimetype"; str_of "Contents/Section0.xml";
               str_of "Contents/Section1.xml"];
  read_entry := fun name =>
    if pystr_eqb name (str_of "Contents/Section1.xml")
    then Raise (Exn BadZipFile "Bad CRC-32 for file 'Contents/Section1.xml'")
    else read_entry hwpx_archive name
|}.

Definition damaged_world : World :=
  one_file_world "damaged.hwpx" (zip_signature ++ [0x14; 0x00; 0x00; 0x00])
    (Ok damaged_archive) None (Raise not_hwp5)
    (Raise (Exn HWPExtractorError "Not an HWP file")).

(** * Proofs *)

(** * Character classes *)

Lemma in_range_iff lo hi c : in_range lo hi c = true <-> lo <= c <= hi.
Proof. unfold in_range. rewrite andb_true_iff, !Z.leb_le. tauto. Qed.

Ltac unfold_classes :=
  unfold span_alphabet, span_cont, span_start, isspace, is_control, is_hangul,
    is_latin, is_digit, mem, span_punct, punctuation, LF, CR, SP, GT, LT in *;
  cbn [existsb] in *.

Ltac chars :=
  unfold_classes;
  repeat match goal with
  | |- _ = false => apply not_true_iff_false; intro
  | H : _ = false |- _ => apply not_true_iff_false in H
  end;
  rewrite ?orb_false_r in *;
  rewrite ?orb_true_iff, ?andb_true_iff, ?negb_true_iff, ?in_range_iff, ?Z.eqb_eq in *;
  lia.

Lemma start_not_space c : span_start c = true -> isspace c = false.
Proof. intros H. chars. Qed.

Lemma start_cont c : span_start c = true -> span_cont c = true.
Proof. intros H. chars. Qed.

Lemma isspace_SP : isspace SP = true.
Proof. reflexivity. Qed.

Lemma cont_allowed u c : span_cont c = true -> is_allowed_char u c = true.
Proof.
  intros H. unfold is_allowed_char.
  destruct (isspace c) eqn:E1; [reflexivity|].
  destruct (mem c punctuation) eqn:E2; [reflexivity|].
  destruct (in_range 48 57 c) eqn:E3; [reflexivity|].
  destruct (in_range 65 90 c || in_range 97 122 c) eqn:E4; [reflexivity|].
  destruct (in_range 44032 55203 c) eqn:E5; [reflexivity|].
  exfalso. chars.
Qed.

Lemma cont_single_alphabet c :
  span_cont c = true -> (isspace c = true -> c = SP) -> span_alphabet c = true.
Proof.
  intros H K. destruct (isspace c) eqn:E.
  - rewrite (K eq_refl). reflexivity.
  - clear K. chars.
Qed.

(** * Lists of characters *)

Lemma filter_all (p : Z -> bool) s :
  Forall (fun c => p c = true) s -> filter p s = s.
Proof.
  induction 1 as [|c s Hc _ IH]; simpl; [reflexivity|].
  rewrite Hc, IH. reflexivity.
Qed.


Lemma Forall_filter_test (p : Z -> bool) s : Forall (fun c => p c = true) (filter p s).
Proof.
  induction s as [|c s IH]; simpl; [constructor|].
  destruct (p c) eqn:E; [constructor|]; assumption.
Qed.

(** ** lstrip, rstrip *)


Lemma lstrip_head s : head_not_space (lstrip s) = true.
Proof.
  induction s as [|c s IH]; simpl; [reflexivity|].
  destruct (isspace c) eqn:E; [assumption|]. simpl. rewrite E. reflexivity.
Qed.

Lemma lstrip_id c r : isspace c = false -> lstrip (c :: r) = c :: r.
Proof. intros H. simpl. rewrite H. reflexivity. Qed.

Lemma single_spaced_tail c s : single_spaced (c :: s) = true -> single_spaced s = true.
Proof. simpl. rewrite andb_true_iff. tauto. Qed.

Lemma lstrip_single_spaced s : single_spaced s = true -> single_spaced (lstrip s) = true.
Proof.
  induction s as [|c s IH]; intros H; [assumption|].
  simpl. destruct (isspace c); [|assumption].
  apply IH. exact (single_spaced_tail _ _ H).
Qed.

Lemma rstrip_cons c t :
  rstrip (c :: t) =
  match rstrip t with
  | [] => if isspace c then [] else [c]
  | d :: r => c :: d :: r
  end.
Proof. reflexivity. Qed.

Lemma rstrip_same_head t d r : rstrip t = d :: r -> exists r0, t = d :: r0.
Proof.
  destruct t as [|c t]; [discriminate|].
  rewrite rstrip_cons. destruct (rstrip t).
  - destruct (isspace c); [discriminate|]. intros [= -> _]. eauto.
  - intros [= -> _]. eauto.
Qed.

Lemma rstrip_Forall (P : Z -> Prop) s : Forall P s -> Forall P (rstrip s).
Proof.
  induction 1 as [|c s Hc Hs IH]; [constructor|].
  rewrite rstrip_cons. destruct (rstrip s).
  - destruct (isspace c); constructor; [assumption|constructor].
  - constructor; assumption.
Qed.

Lemma rstrip_idem s : rstrip (rstrip s) = rstrip s.
Proof.
  induction s as [|c s IH]; [reflexivity|].
  rewrite rstrip_cons. destruct (rstrip s) as [|d r] eqn:E.
  - destruct (isspace c) eqn:Ec; [reflexivity|].
    rewrite rstrip_cons. simpl. rewrite Ec. reflexivity.
  - rewrite rstrip_cons, IH. reflexivity.
Qed.

Lemma rstrip_keeps_head c r :
  isspace c = false -> exists r', rstrip (c :: r) = c :: r'.
Proof.
  intros H. rewrite rstrip_cons. destruct (rstrip r).
  - rewrite H. eauto.
  - eauto.
Qed.

Lemma rstrip_single_spaced s : single_spaced s = true -> single_spaced (rstrip s) = true.
Proof.
  induction s as [|c s IH]; intros H; [reflexivity|].
  rewrite rstrip_cons. simpl in H. apply andb_true_iff in H as [Hc Hs].
  specialize (IH Hs). destruct (rstrip s) as [|d r] eqn:E.
  - destruct (isspace c) eqn:Ec; [reflexivity|]. simpl. rewrite Ec. reflexivity.
  - destruct (rstrip_same_head _ _ _ E) as [r0 ->].
    change (single_spaced (c :: d :: r))
      with ((negb (isspace c) || ((c =? SP) && negb (isspace d))) && single_spaced (d :: r)).
    simpl in Hc. rewrite Hc, IH. reflexivity.
Qed.

Lemma strip_span c r :
  isspace c = false -> strip (c :: r) = rstrip (c :: r).
Proof. intros H. unfold strip. rewrite lstrip_id by assumption. reflexivity. Qed.

(** ** collapse_ws *)

Lemma collapse_ws_from_spaced s :
  forall b, single_spaced (collapse_ws_from b s) = true
            /\ (b = true -> head_not_space (collapse_ws_from b s) = true).
Proof.
  induction s as [|c s IH]; intros b; simpl; [split; reflexivity|].
  destruct (isspace c) eqn:Ec.
  - destruct b.
    + apply IH.
    + destruct (IH true) as [H1 H2]. split; [|discriminate].
      simpl. rewrite H1, (H2 eq_refl). reflexivity.
  - destruct (IH false) as [H1 _]. split.
    + simpl. rewrite Ec, H1. reflexivity.
    + intros _. simpl. rewrite Ec. reflexivity.
Qed.

Lemma collapse_ws_from_id s :
  forall b, single_spaced s = true -> (b = true -> head_not_space s = true) ->
            collapse_ws_from b s = s.
Proof.
  induction s as [|c s IH]; intros b H Hb; [reflexivity|].
  simpl in *. apply andb_true_iff in H as [Hc Hs].
  destruct (isspace c) eqn:Ec.
  - simpl in Hc. apply andb_true_iff in Hc as [Hsp Hh].
    apply Z.eqb_eq in Hsp. subst c.
    destruct b; [specialize (Hb eq_refl); discriminate|].
    rewrite IH; auto.
  - rewrite IH; auto. discriminate.
Qed.


(** ** Prefixes and suffixes *)

Lemma single_spaced_prefix a : forall b, single_spaced (a ++ b) = true -> single_spaced a = true.
Proof.
  induction a as [|x a IH]; intros b H; [reflexivity|].
  simpl in *. apply andb_true_iff in H as [Hx Hs].
  rewrite (IH _ Hs), andb_true_r.
  destruct (isspace x); [|reflexivity]. simpl in *.
  apply andb_true_iff in Hx as [-> Hh]. destruct a; [reflexivity|exact Hh].
Qed.

Lemma single_spaced_suffix a : forall b, single_spaced (a ++ b) = true -> single_spaced b = true.
Proof.
  induction a as [|x a IH]; intros b H; [assumption|].
  apply IH. exact (single_spaced_tail _ _ H).
Qed.

Lemma single_spaced_infix pre x post :
  single_spaced (pre ++ x ++ post) = true -> single_spaced x = true.
Proof.
  intros H. apply single_spaced_suffix in H. exact (single_spaced_prefix _ _ H).
Qed.

(** ** take_cont, findall_spans *)

Lemma take_cont_Forall s : Forall (fun c => span_cont c = true) (take_cont s).
Proof.
  induction s as [|c s IH]; simpl; [constructor|].
  destruct (span_cont c) eqn:E; constructor; assumption.
Qed.

Lemma take_cont_prefix s : exists rest, s = take_cont s ++ rest.
Proof.
  induction s as [|c s [rest IH]]; simpl; [exists []; reflexivity|].
  destruct (span_cont c).
  - exists rest. simpl. congruence.
  - exists (c :: s). reflexivity.
Qed.

Lemma take_cont_all s : Forall (fun c => span_cont c = true) s -> take_cont s = s.
Proof.
  induction 1 as [|c s Hc _ IH]; simpl; [reflexivity|]. rewrite Hc, IH. reflexivity.
Qed.

Lemma after_span_all s : Forall (fun c => span_cont c = true) s -> after_span s = [].
Proof.
  induction 1 as [|c s Hc _ IH]; simpl; [reflexivity|]. rewrite Hc. exact IH.
Qed.

Lemma span_of_cons c s x : span_of s x -> span_of (c :: s) x.
Proof.
  intros [H (pre & post & ->)]. split; [assumption|].
  exists (c :: pre), post. reflexivity.
Qed.

Lemma span_of_here c t : span_start c = true -> span_of (c :: t) (c :: take_cont t).
Proof.
  intros H. split.
  - exists c, (take_cont t). auto using take_cont_Forall.
  - destruct (take_cont_prefix t) as [rest E]. exists [], rest.
    simpl. rewrite <- E. reflexivity.
Qed.

Lemma findall_spans_sound s :
  Forall (span_of s) (findall_spans s) /\ Forall (span_of s) (after_span s).
Proof.
  induction s as [|c s [IH1 IH2]]; simpl; [split; constructor|].
  assert (L : forall l, Forall (span_of s) l -> Forall (span_of (c :: s)) l).
  { intros l Hl. eapply Forall_impl; [|exact Hl]. intros x. apply span_of_cons. }
  split.
  - destruct (span_start c) eqn:E; [|auto].
    constructor; [apply span_of_here; assumption|auto].
  - destruct (span_cont c); [auto|].
    destruct (span_start c) eqn:E; [|auto].
    constructor; [apply span_of_here; assumption|auto].
Qed.

Lemma longest_from_In l : forall best, In (longest_from best l) (best :: l).
Proof.
  induction l as [|x l IH]; intros best; simpl; [auto|].
  destruct (Z.of_nat (length best) <? Z.of_nat (length x)).
  - right. apply IH.
  - destruct (IH best) as [H|H]; auto.
Qed.

(** * The loop body of normalize_text *)

Lemma filtered_line_spaced u raw_line :
  single_spaced (strip (collapse_ws (filter (is_allowed_char u) raw_line))) = true.
Proof.
  unfold strip, collapse_ws.
  apply rstrip_single_spaced, lstrip_single_spaced, collapse_ws_from_spaced.
Qed.

Lemma best_span_sound u raw_line span :
  best_span u raw_line = Some span ->
  (exists c r, span = c :: r /\ span_start c = true)
  /\ Forall (fun c => span_cont c = true) span
  /\ single_spaced span = true
  /\ rstrip span = span.
Proof.
  unfold best_span.
  pose proof (filtered_line_spaced u raw_line) as Hsp.
  set (line := strip (collapse_ws (filter (is_allowed_char u) raw_line))) in *.
  destruct line as [|c0 line'] eqn:El; [discriminate|].
  rewrite <- El in *. clear El c0 line'.
  pose proof (proj1 (findall_spans_sound line)) as Hall.
  destruct (findall_spans line) as [|first others]; [discriminate|].
  pose proof (longest_from_In others first) as Hin.
  rewrite Forall_forall in Hall. apply Hall in Hin.
  destruct Hin as [(c & r & Ex & Hc & Hr) (pre & post & Epp)].
  rewrite Ex. rewrite strip_span by (apply start_not_space; assumption).
  destruct (rstrip_keeps_head c r (start_not_space _ Hc)) as [r' Er].
  rewrite Er. intros [= <-]. rewrite <- Er.
  assert (Hx : single_spaced (c :: r) = true).
  { rewrite <- Ex. apply (single_spaced_infix pre _ post). rewrite <- Epp. exact Hsp. }
  repeat split.
  - rewrite Er. eauto.
  - apply rstrip_Forall. constructor; [apply start_cont|]; assumption.
  - apply rstrip_single_spaced. exact Hx.
  - apply rstrip_idem.
Qed.

Lemma sanitize_line_sound u raw_line l :
  sanitize_line u raw_line = Some l -> sanitized u l.
Proof.
  unfold sanitize_line. destruct (best_span u raw_line) as [span|] eqn:E; [|discriminate].
  destruct (passes_gate u span) eqn:G; [|discriminate].
  intros [= <-]. destruct (best_span_sound _ _ _ E) as (H1 & H2 & H3 & H4).
  repeat split; assumption.
Qed.

Lemma best_span_fixed u l :
  (exists c r, l = c :: r /\ span_start c = true) ->
  Forall (fun c => span_cont c = true) l ->
  single_spaced l = true -> rstrip l = l ->
  best_span u l = Some l.
Proof.
  intros (c & r & -> & Hc) Hall Hsp Hr.
  pose proof (start_not_space _ Hc) as Hns.
  unfold best_span.
  rewrite filter_all
    by (eapply Forall_impl; [|exact Hall]; intros a; apply cont_allowed).
  unfold collapse_ws. rewrite collapse_ws_from_id by (assumption || discriminate).
  rewrite strip_span, Hr by assumption.
  inversion Hall as [|? ? _ Hall']; subst.
  simpl findall_spans. rewrite Hc, take_cont_all, after_span_all by assumption.
  simpl longest_from. rewrite strip_span, Hr by assumption. reflexivity.
Qed.

Lemma sanitize_line_fixed u l : sanitized u l -> sanitize_line u l = Some l.
Proof.
  intros (H1 & H2 & H3 & H4 & H5). unfold sanitize_line.
  rewrite best_span_fixed by assumption. rewrite H5. reflexivity.
Qed.

Lemma sanitized_lines_sound u ls : Forall (sanitized u) (sanitized_lines u ls).
Proof.
  induction ls as [|l ls IH]; simpl; [constructor|].
  destruct (sanitize_line u l) eqn:E; [|assumption].
  constructor; [exact (sanitize_line_sound _ _ _ E)|assumption].
Qed.

Lemma sanitized_lines_fixed u ls :
  Forall (sanitized u) ls -> sanitized_lines u ls = ls.
Proof.
  induction 1 as [|l ls Hl _ IH]; simpl; [reflexivity|].
  rewrite (sanitize_line_fixed _ _ Hl), IH. reflexivity.
Qed.

(** The characters of a sanitized line. *)
Lemma single_spaced_chars s :
  single_spaced s = true -> Forall (fun c => isspace c = true -> c = SP) s.
Proof.
  induction s as [|c s IH]; intros H; constructor.
  - simpl in H. apply andb_true_iff in H as [H _]. intros E. rewrite E in H.
    simpl in H. apply andb_true_iff in H as [H _]. apply Z.eqb_eq. exact H.
  - apply IH. exact (single_spaced_tail _ _ H).
Qed.

Lemma sanitized_chars u l :
  sanitized u l ->
  Forall (fun c => span_alphabet c = true /\ c <> LF) l.
Proof.
  intros (_ & Hall & Hsp & _). apply single_spaced_chars in Hsp.
  rewrite Forall_forall in *. intros c Hin. split.
  - apply cont_single_alphabet; auto.
  - intros ->. specialize (Hsp LF Hin eq_refl). discriminate.
Qed.

Lemma sanitized_nonempty u l : sanitized u l -> l <> [].
Proof. intros ((c & r & -> & _) & _). discriminate. Qed.

Lemma sanitized_strip u l : sanitized u l -> strip l = l.
Proof.
  intros ((c & r & -> & Hc) & _ & _ & Hr & _).
  rewrite strip_span by (apply start_not_space; assumption). exact Hr.
Qed.

(** * The text around the loop *)

Lemma replace_crlf_id s : Forall (fun c => c <> CR) s -> replace_crlf s = s.
Proof.
  induction 1 as [|c s Hc _ IH]; [reflexivity|].
  destruct s as [|d t]; [reflexivity|].
  change (replace_crlf (c :: d :: t))
    with (if (c =? CR) && (d =? LF) then LF :: replace_crlf t
          else c :: replace_crlf (d :: t)).
  apply Z.eqb_neq in Hc. rewrite Hc, IH. reflexivity.
Qed.

Lemma replace_cr_id s : Forall (fun c => c <> CR) s -> replace_cr s = s.
Proof.
  unfold replace_cr. induction 1 as [|c s Hc _ IH]; simpl; [reflexivity|].
  apply Z.eqb_neq in Hc. rewrite Hc, IH. reflexivity.
Qed.

Lemma collapse_newlines_from_line l rest :
  Forall (fun c => c <> LF) l ->
  collapse_newlines_from 0 (l ++ rest) = l ++ collapse_newlines_from 0 rest.
Proof.
  induction 1 as [|c l Hc _ IH]; simpl; [reflexivity|].
  apply Z.eqb_neq in Hc. rewrite Hc, IH. reflexivity.
Qed.

Lemma collapse_newlines_from_ok_line l rest k :
  line_ok l ->
  collapse_newlines_from k (l ++ rest) = l ++ collapse_newlines_from 0 rest.
Proof.
  intros [Hne Hall]. destruct l as [|c l]; [contradiction|].
  inversion Hall as [|? ? Hc Hl]; subst. simpl.
  apply Z.eqb_neq in Hc. rewrite Hc, collapse_newlines_from_line by assumption.
  reflexivity.
Qed.

Lemma collapse_newlines_join ls :
  Forall line_ok ls ->
  forall k, (k <= 1)%nat -> collapse_newlines_from k (join_lines ls) = join_lines ls.
Proof.
  induction 1 as [|l ls Hl Hls IH]; intros k Hk; [reflexivity|].
  destruct ls as [|l2 ls].
  - simpl. rewrite <- (app_nil_r l) at 1.
    rewrite collapse_newlines_from_ok_line by assumption. simpl.
    apply app_nil_r.
  - change (join_lines (l :: l2 :: ls)) with (l ++ LF :: join_lines (l2 :: ls)).
    rewrite collapse_newlines_from_ok_line by assumption.
    simpl collapse_newlines_from at 1. rewrite IH by lia. reflexivity.
Qed.

Lemma split_lines_line l : Forall (fun c => c <> LF) l -> split_lines l = [l].
Proof.
  induction 1 as [|c l Hc _ IH]; simpl; [reflexivity|].
  apply Z.eqb_neq in Hc. rewrite Hc, IH. reflexivity.
Qed.

Lemma split_lines_app l rest :
  Forall (fun c => c <> LF) l ->
  split_lines (l ++ LF :: rest) = l :: split_lines rest.
Proof.
  induction 1 as [|c l Hc _ IH]; simpl; [reflexivity|].
  apply Z.eqb_neq in Hc. rewrite Hc, IH. reflexivity.
Qed.

Lemma split_lines_join ls :
  Forall line_ok ls -> ls <> [] -> split_lines (join_lines ls) = ls.
Proof.
  induction 1 as [|l ls [_ Hl] Hls IH]; intros Hne; [contradiction|].
  destruct ls as [|l2 ls].
  - simpl. apply split_lines_line. assumption.
  - change (join_lines (l :: l2 :: ls)) with (l ++ LF :: join_lines (l2 :: ls)).
    rewrite split_lines_app by assumption. rewrite IH by discriminate. reflexivity.
Qed.

Lemma join_lines_Forall (P : Z -> Prop) ls :
  P LF -> Forall (Forall P) ls -> Forall P (join_lines ls).
Proof.
  intros HP. induction 1 as [|l ls Hl Hls IH]; [constructor|].
  destruct ls as [|l2 ls]; [exact Hl|].
  change (join_lines (l :: l2 :: ls)) with (l ++ LF :: join_lines (l2 :: ls)).
  apply Forall_app. split; [assumption|]. constructor; assumption.
Qed.

Lemma no_double_newline_app l rest :
  Forall (fun c => c <> LF) l -> no_double_newline rest = true ->
  no_double_newline (l ++ rest) = true.
Proof.
  induction 1 as [|c l Hc _ IH]; intros Hr; [assumption|].
  simpl. apply Z.eqb_neq in Hc. rewrite Hc. simpl. apply IH. assumption.
Qed.

Lemma no_double_newline_cons a t :
  no_double_newline (a :: t) =
  negb ((a =? LF) && match t with b :: _ => b =? LF | [] => false end)
  && no_double_newline t.
Proof. reflexivity. Qed.

Lemma no_double_newline_join ls :
  Forall line_ok ls -> no_double_newline (join_lines ls) = true.
Proof.
  induction 1 as [|l ls [Hne Hl] Hls IH]; [reflexivity|].
  destruct ls as [|l2 ls].
  - simpl. rewrite <- (app_nil_r l). apply no_double_newline_app; auto.
  - change (join_lines (l :: l2 :: ls)) with (l ++ LF :: join_lines (l2 :: ls)).
    apply no_double_newline_app; [assumption|].
    rewrite no_double_newline_cons, IH, andb_true_r.
    inversion Hls as [|? ? [Hne2 Hl2] _]; subst.
    destruct l2 as [|c l2]; [contradiction|].
    inversion Hl2 as [|? ? Hc _]; subst. apply Z.eqb_neq in Hc.
    destruct ls; simpl; rewrite Hc; reflexivity.
Qed.

Lemma no_double_newline_run s : no_double_newline s = true -> no_newline_run 2 s.
Proof.
  intros H pre. revert s H. induction pre as [|a pre IH]; intros s H post E; subst s.
  - simpl in H. discriminate.
  - simpl in H. apply andb_true_iff in H as [_ H]. exact (IH _ H post eq_refl).
Qed.

Lemma no_newline_run_S n s : no_newline_run n s -> no_newline_run (S n) s.
Proof.
  intros H pre post E. apply (H (pre ++ [LF]) post).
  rewrite E. simpl. rewrite <- app_assoc. reflexivity.
Qed.

Lemma sanitized_line_ok u l : sanitized u l -> line_ok l.
Proof.
  intros H. split; [exact (sanitized_nonempty _ _ H)|].
  eapply Forall_impl; [|exact (sanitized_chars _ _ H)]. intros c [_ Hc]. exact Hc.
Qed.

Lemma alphabet_plain c :
  span_alphabet c = true -> c <> CR /\ c <> 0 /\ is_control c = false.
Proof. intros H. repeat split; chars. Qed.

Lemma alphabet_allowed u c : span_alphabet c = true -> is_allowed_char u c = true.
Proof.
  intros H. destruct (span_cont c) eqn:E; [exact (cont_allowed u c E)|].
  assert (c = LF) as -> by chars. reflexivity.
Qed.

Lemma sanitized_join_alphabet u ls :
  Forall (sanitized u) ls -> Forall (fun c => span_alphabet c = true) (join_lines ls).
Proof.
  intros H. apply join_lines_Forall; [reflexivity|].
  eapply Forall_impl; [|exact H]. intros l Hl.
  eapply Forall_impl; [|exact (sanitized_chars _ _ Hl)]. intros c [Hc _]. exact Hc.
Qed.

Lemma clean_join u ls : Forall (sanitized u) ls -> clean (join_lines ls) = join_lines ls.
Proof.
  intros H. pose proof (sanitized_join_alphabet _ _ H) as Ha. unfold clean.
  rewrite replace_crlf_id, replace_cr_id;
    try (eapply Forall_impl; [|exact Ha]; intros c Hc; apply (alphabet_plain c Hc)).
  unfold remove_nul, remove_control. rewrite !filter_all.
  - apply collapse_newlines_join; [|lia].
    eapply Forall_impl; [|exact H]. intros l. apply sanitized_line_ok.
  - eapply Forall_impl; [|exact Ha]. intros c Hc.
    destruct (alphabet_plain c Hc) as (_ & H0 & _). apply Z.eqb_neq in H0.
    rewrite H0. reflexivity.
  - rewrite filter_all.
    + eapply Forall_impl; [|exact Ha]. intros c Hc.
      destruct (alphabet_plain c Hc) as (_ & _ & H1). rewrite H1. reflexivity.
    + eapply Forall_impl; [|exact Ha]. intros c Hc.
      destruct (alphabet_plain c Hc) as (_ & H0 & _). apply Z.eqb_neq in H0.
      rewrite H0. reflexivity.
Qed.

Lemma normalize_text_join u ls :
  Forall (sanitized u) ls -> normalize_text u (join_lines ls) = join_lines ls.
Proof.
  intros H. unfold normalize_text. rewrite (clean_join u) by assumption.
  destruct ls as [|l ls]; [reflexivity|].
  rewrite split_lines_join.
  - rewrite sanitized_lines_fixed by assumption. reflexivity.
  - eapply Forall_impl; [|exact H]. intros x. apply sanitized_line_ok.
  - discriminate.
Qed.

(** C2: the normalizer is idempotent. *)
Theorem normalize_text_idempotent (u : UnicodeData) (S : pystr) :
  normalize_text u (normalize_text u S) = normalize_text u S.
Proof.
  unfold normalize_text at 2 3. apply normalize_text_join, sanitized_lines_sound.
Qed.

(** C8 as stated fails on the empty output: split on newline, it is one
    empty line. *)
Lemma normalize_text_empty_output_line :
  ~ Forall (fun l : pystr => l <> []) (split_lines (normalize_text sample_unicode [])).
Proof.
  intros H. vm_compute in H. inversion H as [|? ? Hne _]. apply Hne. reflexivity.
Qed.

(** C8 (amended): the output of [normalize_text] is empty or, split on
    newline, has every line non-empty, trimmed and single-spaced; it
    holds no NUL, no control character of the class the source removes
    and no run of three newlines, and each of its characters passes
    [is_allowed_char]. *)
Theorem normalize_text_output (u : UnicodeData) (S : pystr) :
  (normalize_text u S = []
   \/ Forall (fun l => l <> [] /\ strip l = l /\ single_spaced l = true)
             (split_lines (normalize_text u S)))
  /\ Forall (fun c => c <> 0 /\ is_control c = false /\ is_allowed_char u c = true)
            (normalize_text u S)
  /\ no_newline_run 3 (normalize_text u S).
Proof.
  unfold normalize_text.
  pose proof (sanitized_lines_sound u (split_lines (clean S))) as H.
  set (ls := sanitized_lines u (split_lines (clean S))) in *.
  assert (Hok : Forall line_ok ls).
  { eapply Forall_impl; [|exact H]. intros l. apply sanitized_line_ok. }
  split; [|split].
  - destruct ls as [|l ls'] eqn:E; [left; reflexivity|right].
    rewrite split_lines_join by (assumption || discriminate).
    eapply Forall_impl; [|exact H]. intros x Hx. repeat split.
    + exact (sanitized_nonempty _ _ Hx).
    + exact (sanitized_strip _ _ Hx).
    + apply Hx.
  - eapply Forall_impl; [|exact (sanitized_join_alphabet _ _ H)].
    intros c Hc. destruct (alphabet_plain c Hc) as (_ & H0 & H1).
    repeat split; [assumption|assumption|apply alphabet_allowed; assumption].
  - apply no_newline_run_S, no_double_newline_run, no_double_newline_join. exact Hok.
Qed.

(** C10: every character of the output belongs to the alphabet of the
    span pattern (a Hangul syllable, an ASCII letter or digit, a space,
    a newline, or one of . , ! ? U+2026 ( ) -); no ideograph, jamo or
    CJK symbol is among them. *)
Theorem normalize_text_span_alphabet (u : UnicodeData) (S : pystr) :
  Forall (fun c => span_alphabet c = true) (normalize_text u S)
  /\ Forall (fun c => in_range 0x4E00 0x9FFF c = false
                      /\ in_range 0x3400 0x4DBF c = false
                      /\ in_range 0x1100 0x11FF c = false
                      /\ in_range 0x3130 0x318F c = false
                      /\ in_range 0x3000 0x303F c = false)
            (normalize_text u S).
Proof.
  assert (H : Forall (fun c => span_alphabet c = true) (normalize_text u S)).
  { apply (sanitized_join_alphabet u), sanitized_lines_sound. }
  split; [exact H|].
  eapply Forall_impl; [|exact H]. intros c Hc. repeat split; chars.
Qed.

(** * The quality gates *)



Lemma count_nonneg p s : 0 <= count p s.
Proof. unfold count. lia. Qed.

Lemma count_le_length p s : count p s <= Z.of_nat (length s).
Proof. unfold count. pose proof (filter_length_le p s). lia. Qed.






Lemma sanitize_line_gate u line span :
  best_span u line = Some span ->
  sanitize_line u line = if passes_gate u span then Some span else None.
Proof. intros E. unfold sanitize_line. rewrite E. reflexivity. Qed.



(** * smart_decode *)

Lemma Qltb_lt a b : Qltb a b = true <-> (a < b)%Q.
Proof. unfold Qltb, Qlt. apply Z.ltb_lt. Qed.







(** ** Floats are not negative where their arguments are not *)

Lemma pow2_pos k : (0 < pow2 k)%Q.
Proof.
  unfold pow2. destruct (0 <=? k) eqn:E.
  - apply Z.leb_le in E. unfold Qlt. cbn [Qnum Qden inject_Z].
    pose proof (Z.pow_pos_nonneg 2 k). lia.
  - reflexivity.
Qed.

Lemma nearest_even_nonneg m : 0 <= Qnum m -> 0 <= nearest_even m.
Proof.
  intros H. unfold nearest_even. cbv zeta.
  assert (Hq : 0 <= Qnum m / QDen m) by (apply Z.div_pos; lia).
  destruct (2 * (Qnum m mod QDen m) ?= QDen m); [destruct (Z.even _)| |]; lia.
Qed.

Lemma round_positive_nonneg x : 0 <= Qnum x -> (0 <= round_positive x)%Q.
Proof.
  intros H. unfold round_positive. cbv zeta.
  set (k := Z.max (float_exponent x - 52) (- 1074)).
  apply Qmult_le_0_compat; [|apply Qlt_le_weak, pow2_pos].
  assert (Hn : 0 <= nearest_even (x * pow2 (- k))).
  { apply nearest_even_nonneg. cbn [Qnum Qmult].
    pose proof (pow2_pos (- k)) as Hp. unfold Qlt in Hp. cbn [Qnum Qden] in Hp.
    apply Z.mul_nonneg_nonneg; lia. }
  unfold Qle. cbn [Qnum Qden inject_Z]. lia.
Qed.

Lemma round_float_nonneg x : (0 <= x)%Q -> (0 <= round_float x)%Q.
Proof.
  intros H. unfold Qle in H. cbn [Qnum Qden] in H.
  unfold round_float. destruct (Qnum x) as [|n|n] eqn:E.
  - apply Qle_refl.
  - apply round_positive_nonneg. lia.
  - lia.
Qed.

Lemma ratio_nonneg a b : 0 <= a -> (0 <= ratio a b)%Q.
Proof.
  intros H. unfold ratio. apply round_float_nonneg.
  unfold Qle. cbn [Qnum Qden]. lia.
Qed.

Lemma score_text_nonneg u txt : (0 <= score_text u txt)%Q.
Proof.
  unfold score_text, fadd, fmul.
  assert (Hp : (0 <= printable_ratio u txt)%Q).
  { unfold printable_ratio. destruct txt; [apply Qle_refl|].
    apply ratio_nonneg, count_nonneg. }
  assert (Hh : (0 <= hangul_ratio u txt)%Q).
  { unfold hangul_ratio. destruct txt; [apply Qle_refl|].
    apply ratio_nonneg, count_nonneg. }
  assert (Hm : (0 <= round_float (float_0_4 * hangul_ratio u txt))%Q).
  { apply round_float_nonneg. apply Qmult_le_0_compat; [|assumption].
    unfold float_0_4. apply round_float_nonneg. discriminate. }
  apply round_float_nonneg.
  apply (Qplus_le_compat 0 _ 0 _ Hp) in Hm. exact Hm.
Qed.






(** C4 as stated fails: the two bytes of U+D55C in little-endian order
    hold no zero byte, so the little-endian decoding, which would score
    1.4, is not tried, and the result is the text of the legacy codecs. *)
Lemma smart_decode_skips_utf16le :
  sample_codecs UTF_16_LE Strict han_utf16le = Some han_syllable
  /\ forallb is_hangul han_syllable = true
  /\ (float_1_2 < score_text sample_unicode han_syllable)%Q
  /\ smart_decode sample_unicode sample_codecs han_utf16le = [0x5C; REPLACEMENT]
  /\ smart_decode sample_unicode sample_codecs han_utf16le <> han_syllable.
Proof.
  repeat split; try reflexivity. vm_compute. discriminate.
Qed.

Lemma scan_returns score decode cand rest st txt :
  decode cand = Some txt ->
  Qltb float_1_2 (score txt) = true ->
  scan score decode (cand :: rest) st = Returned txt (attempted st ++ [txt]).
Proof.
  intros Hdec Hhigh. cbn [scan]. rewrite Hdec. cbv zeta. rewrite Hhigh. reflexivity.
Qed.

(** C4 (amended): when more than a fifth of the first 4096 bytes are
    zero bytes, the strict little-endian decoding succeeds and its
    score exceeds 1.2, [smart_decode] returns that decoding, whatever
    the other candidates give. *)
Theorem smart_decode_prefers_utf16le (u : UnicodeData) (cd : Codecs)
  (raw : pybytes) (txt : pystr) :
  looks_utf16 raw = true ->
  cd UTF_16_LE Strict raw = Some txt ->
  (float_1_2 < score_text u txt)%Q ->
  smart_decode u cd raw = txt.
Proof.
  intros Hwide Hdec Hscore. apply Qltb_lt in Hscore.
  unfold smart_decode, smart_decode_trace, smart_decode_with, candidates.
  rewrite Hwide.
  change (wide_candidates ++ legacy_candidates)
    with ((UTF_16_LE, Strict)
          :: ([(UTF_16_BE, Strict); (UTF_16, Replace)] ++ legacy_candidates)).
  rewrite (scan_returns (score_text u) (fun c => cd (fst c) (snd c) raw)
             (UTF_16_LE, Strict) _ _ txt Hdec Hscore).
  reflexivity.
Qed.

Lemma smart_decode_prefers_utf16le_sample :
  smart_decode sample_unicode sample_codecs ga_na_utf16le = ga_na.
Proof.
  apply smart_decode_prefers_utf16le; reflexivity.
Defined.

(** * The strategies *)

Lemma try_hwpx_returns w u cd path : exists r, try_hwpx w u cd path = Ok r.
Proof.
  unfold try_hwpx, try_except. destruct (try_hwpx_body w u cd path); eauto.
Qed.

Lemma try_hwpx_catches w u cd path e :
  try_hwpx_body w u cd path = Raise e -> try_hwpx w u cd path = Ok None.
Proof. intros H. unfold try_hwpx. rewrite H. reflexivity. Qed.

Lemma insert_sorted_In x y l : In x (insert_sorted y l) <-> x = y \/ In x l.
Proof.
  induction l as [|z l IH]; simpl.
  - intuition congruence.
  - destruct (pystr_leb y z); simpl; [intuition congruence|].
    rewrite IH. intuition congruence.
Qed.

Lemma sorted_In x l : In x (sorted l) <-> In x l.
Proof.
  induction l as [|y l IH]; simpl; [tauto|].
  rewrite insert_sorted_In, IH. intuition congruence.
Qed.

Lemma mapM_raises {A B} (f : A -> result B) l x e :
  In x l -> f x = Raise e -> exists e', mapM f l = Raise e'.
Proof.
  induction l as [|a l IH]; intros Hin Hx; [contradiction|].
  simpl. destruct (f a) as [b|e0] eqn:E; simpl; [|eauto].
  destruct Hin as [->|Hin]; [congruence|].
  destruct (IH Hin Hx) as [e' ->]. simpl. eauto.
Qed.

Lemma try_hwpx_body_zip w u cd path data a :
  read_file w path = Ok data -> firstn 4 data = zip_signature ->
  ZipFile w path = Ok a ->
  try_hwpx_body w u cd path =
  match section_entries u a with
  | [] => Ok None
  | names =>
      texts <- mapM (read_section cd a) (sorted names) ;;
      Ok (Some (normalize_text u (join_lines texts)))
  end.
Proof.
  intros Hr Hs Hz. unfold try_hwpx_body. rewrite Hr. unfold bind at 1. cbv zeta.
  rewrite Hs. change (pystr_eqb zip_signature zip_signature) with true.
  simpl negb. cbv iota. rewrite Hz. reflexivity.
Qed.

Lemma extract_text_after_hwpx w u cd path :
  try_hwpx w u cd path = Ok None ->
  exists more,
    fst (extract_text w u cd path)
    = Call_try_hwpx :: (if HAS_PYHWP w then Call_pyhwp else Call_hwp_extract) :: more.
Proof.
  intros H. unfold extract_text. rewrite H.
  destruct (HAS_PYHWP w); [|simpl; eauto].
  destruct (extract_with_pyhwp w u cd path) as [[[[|c t]|] err]|e]; simpl; eauto.
Qed.

(** C7: [try_hwpx] returns on every path; whatever is raised inside it
    (by reading the file, opening the container, reading or decoding an
    entry) makes it return [None], and [extract_text] then calls the
    next strategy. *)
Theorem try_hwpx_never_raises (w : World) (u : UnicodeData) (cd : Codecs)
  (path : string) :
  (exists r, try_hwpx w u cd path = Ok r)
  /\ (forall e, try_hwpx_body w u cd path = Raise e ->
                try_hwpx w u cd path = Ok None)
  /\ (forall e, read_file w path = Raise e -> try_hwpx w u cd path = Ok None)
  /\ (forall data e,
        read_file w path = Ok data -> firstn 4 data = zip_signature ->
        ZipFile w path = Raise e -> try_hwpx w u cd path = Ok None)
  /\ (forall data a name e,
        read_file w path = Ok data -> firstn 4 data = zip_signature ->
        ZipFile w path = Ok a -> In name (section_entries u a) ->
        read_section cd a name = Raise e -> try_hwpx w u cd path = Ok None)
  /\ (try_hwpx w u cd path = Ok None ->
      exists more,
        fst (extract_text w u cd path)
        = Call_try_hwpx :: (if HAS_PYHWP w then Call_pyhwp else Call_hwp_extract)
            :: more).
Proof.
  split; [apply try_hwpx_returns|].
  split; [apply try_hwpx_catches|].
  split; [|split; [|split]].
  - intros e H. apply (try_hwpx_catches w u cd path e).
    unfold try_hwpx_body. rewrite H. reflexivity.
  - intros data e Hr Hs Hz. apply (try_hwpx_catches w u cd path e).
    unfold try_hwpx_body. rewrite Hr. unfold bind at 1. cbv zeta. rewrite Hs.
    change (pystr_eqb zip_signature zip_signature) with true. simpl negb. cbv iota.
    rewrite Hz. reflexivity.
  - intros data a name e Hr Hs Hz Hin Hx.
    destruct (mapM_raises (read_section cd a) (sorted (section_entries u a)) name e)
      as [e' He']; [apply sorted_In; assumption|assumption|].
    apply (try_hwpx_catches w u cd path e').
    rewrite (try_hwpx_body_zip w u cd path data a) by assumption.
    destruct (section_entries u a); [contradiction|].
    rewrite He'. reflexivity.
  - apply extract_text_after_hwpx.
Qed.

Lemma extract_with_pyhwp_returns w u cd path :
  exists r, extract_with_pyhwp w u cd path = Ok r.
Proof.
  unfold extract_with_pyhwp. destruct (negb (HAS_PYHWP w)); [eauto|].
  unfold try_except. destruct (extract_with_pyhwp_body w u cd path); eauto.
Qed.

Lemma after_normalization_shape u text :
  (exists c t, after_normalization u text = (Some (c :: t), None))
  \/ (exists e, after_normalization u text = (None, Some e)).
Proof.
  unfold after_normalization. destruct (normalize_text u text); simpl; eauto.
Qed.

(** With the library present, [extract_with_pyhwp] gives a non-empty
    text and no error, or no text and an error. *)
Lemma extract_with_pyhwp_shape w u cd path :
  HAS_PYHWP w = true ->
  (exists c t, extract_with_pyhwp w u cd path = Ok (Some (c :: t), None))
  \/ (exists e, extract_with_pyhwp w u cd path = Ok (None, Some e)).
Proof.
  intros H. unfold extract_with_pyhwp. rewrite H. simpl negb. cbv iota.
  unfold extract_with_pyhwp_body, try_except.
  destruct (transform_hwp5_to_text w path) as [raw|e]; simpl; [|eauto].
  destruct (bytes_blank raw).
  - destruct (transform_hwp5_to_html w path) as [raw'|e]; simpl; [|eauto].
    destruct (bytes_blank raw'); [eauto|].
    destruct (decode_replace cd raw') as [html|e]; simpl; [|eauto].
    destruct (text_content w html) as [text|e]; simpl; [|eauto].
    destruct (after_normalization_shape u text) as [(c & t & ->)|(e & ->)]; eauto.
  - destruct (decode_replace cd raw) as [text|e]; simpl; [|eauto].
    destruct (after_normalization_shape u text) as [(c & t & ->)|(e & ->)]; eauto.
Qed.

Lemma fallback_raises w u cd path pyhwp_error err :
  extract_with_hwp_extract w u cd path = Raise err ->
  fallback w u cd path pyhwp_error
  = Raise (ExnFrom RuntimeError (exn_str err ++ pyhwp_suffix pyhwp_error)%string err).
Proof. intros H. unfold fallback. rewrite H. reflexivity. Qed.

Lemma fallback_error_class w u cd path pyhwp_error e :
  fallback w u cd path pyhwp_error = Raise e ->
  exn_cls e = RuntimeError
  /\ exists err, extract_with_hwp_extract w u cd path = Raise err
                 /\ exn_cause e = Some err.
Proof.
  unfold fallback, try_except.
  destruct (extract_with_hwp_extract w u cd path) as [txt|err]; simpl; [discriminate|].
  intros [= <-]. simpl. eauto.
Qed.

Lemma fallback_error w u cd path pyhwp_error e :
  fallback w u cd path pyhwp_error = Raise e ->
  exists err, extract_with_hwp_extract w u cd path = Raise err
              /\ e = ExnFrom RuntimeError (exn_str err ++ pyhwp_suffix pyhwp_error)%string err.
Proof.
  unfold fallback, try_except.
  destruct (extract_with_hwp_extract w u cd path) as [txt|err]; simpl; [discriminate|].
  intros [= <-]. eauto.
Qed.

(** Whatever leaves [extract_text] as an error was raised by its last
    block, from the error of [extract_with_hwp_extract] and with the
    message of that error in front. *)
Lemma extract_text_error w u cd path e :
  snd (extract_text w u cd path) = Raise e ->
  exists err suffix,
    extract_with_hwp_extract w u cd path = Raise err
    /\ e = ExnFrom RuntimeError (exn_str err ++ suffix)%string err.
Proof.
  unfold extract_text.
  destruct (try_hwpx_returns w u cd path) as [r ->].
  destruct r as [[|c t]|]; simpl.
  1, 3: destruct (HAS_PYHWP w); simpl;
        [destruct (extract_with_pyhwp_returns w u cd path) as [[[[|c' t']|] pe] ->];
         simpl; try discriminate; intros H;
         destruct (fallback_error _ _ _ _ _ _ H) as (err & ? & ?); eauto
        |intros H; destruct (fallback_error _ _ _ _ _ _ H) as (err & ? & ?); eauto].
  discriminate.
Qed.

(** Whatever leaves [extract_text] as an error is a [RuntimeError]
    raised from the error of [extract_with_hwp_extract]. *)
Lemma extract_text_error_class w u cd path e :
  snd (extract_text w u cd path) = Raise e ->
  exn_cls e = RuntimeError
  /\ exists err, extract_with_hwp_extract w u cd path = Raise err
                 /\ exn_cause e = Some err.
Proof.
  unfold extract_text.
  destruct (try_hwpx_returns w u cd path) as [r ->].
  destruct r as [[|c t]|]; simpl.
  1, 3: destruct (HAS_PYHWP w); simpl;
        [destruct (extract_with_pyhwp_returns w u cd path) as [[[[|c' t']|] pe] ->];
         simpl; try discriminate; apply fallback_error_class
        |apply fallback_error_class].
  discriminate.
Qed.

Lemma extract_text_falls_through w u cd path :
  (forall c t, try_hwpx w u cd path <> Ok (Some (c :: t))) ->
  (forall c t e, extract_with_pyhwp w u cd path <> Ok (Some (c :: t), e)) ->
  exists pyhwp_error,
    extract_text w u cd path
    = (if HAS_PYHWP w then [Call_try_hwpx; Call_pyhwp; Call_hwp_extract]
       else [Call_try_hwpx; Call_hwp_extract],
       fallback w u cd path pyhwp_error)
    /\ (HAS_PYHWP w = false -> pyhwp_error = None)
    /\ (HAS_PYHWP w = true ->
        exists e, extract_with_pyhwp w u cd path = Ok (None, Some e)
                  /\ pyhwp_error = Some e).
Proof.
  intros H1 H2. unfold extract_text.
  destruct (try_hwpx_returns w u cd path) as [r Hr]. rewrite Hr.
  destruct r as [[|c t]|]; [|exfalso; exact (H1 c t Hr)|];
    (destruct (HAS_PYHWP w) eqn:Hhas;
     [destruct (extract_with_pyhwp_shape w u cd path Hhas) as [(c' & t' & E)|(e & E)];
      [exfalso; exact (H2 c' t' None E)
      |rewrite E; exists (Some e); repeat split; [discriminate|eauto]]
     |exists None; repeat split; discriminate]).
Qed.

Lemma extract_with_hwp_extract_no_text w u cd path data streams :
  read_file w path = Ok data -> extract_files w data = Ok streams ->
  text_fragments u cd streams = [] ->
  extract_with_hwp_extract w u cd path = Raise no_text_error.
Proof.
  intros Hr Hx Hf. unfold extract_with_hwp_extract.
  rewrite Hr. simpl. rewrite Hx. simpl. rewrite Hf. reflexivity.
Qed.

Lemma extract_with_hwp_extract_raises w u cd path err :
  extract_with_hwp_extract w u cd path = Raise err ->
  read_file w path = Raise err
  \/ (exists data, read_file w path = Ok data /\ extract_files w data = Raise err)
  \/ (err = no_text_error
      /\ exists data streams,
           read_file w path = Ok data /\ extract_files w data = Ok streams
           /\ text_fragments u cd streams = []).
Proof.
  unfold extract_with_hwp_extract.
  destruct (read_file w path) as [data|e]; simpl; [|intros [= ->]; auto].
  destruct (extract_files w data) as [streams|e] eqn:Ex; simpl;
    [|intros [= ->]; right; left; eauto].
  destruct (text_fragments u cd streams) as [|f fs] eqn:E; [|discriminate].
  intros [= <-]. right; right. split; [reflexivity|]. eauto.
Qed.

(** What [extract_text] raises once no strategy gave a text. *)
Lemma extract_text_exhausted w u cd path err :
  (forall c t, try_hwpx w u cd path <> Ok (Some (c :: t))) ->
  (forall c t e, extract_with_pyhwp w u cd path <> Ok (Some (c :: t), e)) ->
  extract_with_hwp_extract w u cd path = Raise err ->
  exists suffix,
    snd (extract_text w u cd path)
    = Raise (ExnFrom RuntimeError (exn_str err ++ suffix)%string err)
    /\ (HAS_PYHWP w = false -> suffix = EmptyString)
    /\ (HAS_PYHWP w = true ->
        exists e, extract_with_pyhwp w u cd path = Ok (None, Some e)
                  /\ suffix = (" (pyhwp failed: " ++ exn_str e ++ ")")%string)
    /\ (suffix <> EmptyString <-> In Call_pyhwp (fst (extract_text w u cd path))).
Proof.
  intros H1 H2 Hno.
  destruct (extract_text_falls_through w u cd path H1 H2) as (pe & E & Hoff & Hon).
  rewrite E. simpl fst. simpl snd.
  rewrite (fallback_raises w u cd path pe err Hno).
  exists (pyhwp_suffix pe). split; [reflexivity|].
  destruct (HAS_PYHWP w).
  - destruct (Hon eq_refl) as (e & Ee & ->). repeat split.
    + discriminate.
    + intros _. exists e. split; [assumption|reflexivity].
    + intros _. simpl. auto.
    + intros _. simpl. discriminate.
  - rewrite (Hoff eq_refl). repeat split.
    + discriminate.
    + intros C. contradiction.
    + simpl. intros [C|[C|[]]]; discriminate.
Qed.

(** C5 as stated fails: for a path that names no file, all three
    strategies are called and give no text, and the error that leaves
    [extract_text] carries the message of the failed [open], not the
    fixed message. *)
Lemma extract_text_missing_file :
  try_hwpx missing_world sample_unicode sample_codecs "missing.hwp" = Ok None
  /\ extract_with_pyhwp missing_world sample_unicode sample_codecs "missing.hwp"
     = Ok (None, Some file_not_found)
  /\ extract_with_hwp_extract missing_world sample_unicode sample_codecs "missing.hwp"
     = Raise file_not_found
  /\ extract_text missing_world sample_unicode sample_codecs "missing.hwp"
     = ([Call_try_hwpx; Call_pyhwp; Call_hwp_extract],
        Raise (ExnFrom RuntimeError
                 ("[Errno 2] No such file or directory: 'missing.hwp'"
                  ++ " (pyhwp failed: [Errno 2] No such file or directory: 'missing.hwp')")
                 file_not_found))
  /\ String.prefix no_text_message
       ("[Errno 2] No such file or directory: 'missing.hwp'"
        ++ " (pyhwp failed: [Errno 2] No such file or directory: 'missing.hwp')")
     = false.
Proof. repeat split. Qed.

(** C5 (amended): strategies 1 and 2 never raise, so every error that
    leaves [extract_text] is the [RuntimeError] its last block raises
    from the error of [extract_with_hwp_extract].  When no strategy
    gives a text, that error carries the message of the raw-stream
    strategy's error, followed by the structured library's error
    exactly when that strategy was called.  The message is the fixed
    one of [no_text_error] when the streams were read and no fragment
    survived; otherwise the raw-stream strategy failed on reading the
    file or in the extractor, and the message is that of its error. *)
Theorem extract_text_terminal_failure (w : World) (u : UnicodeData) (cd : Codecs)
  (path : string) :
  (exists r, try_hwpx w u cd path = Ok r)
  /\ (exists r, extract_with_pyhwp w u cd path = Ok r)
  /\ (forall e, snd (extract_text w u cd path) = Raise e ->
        exn_cls e = RuntimeError
        /\ exists err, extract_with_hwp_extract w u cd path = Raise err
                       /\ exn_cause e = Some err)
  /\ (forall err,
        (forall c t, try_hwpx w u cd path <> Ok (Some (c :: t))) ->
        (forall c t e, extract_with_pyhwp w u cd path <> Ok (Some (c :: t), e)) ->
        extract_with_hwp_extract w u cd path = Raise err ->
        exists suffix,
          snd (extract_text w u cd path)
          = Raise (ExnFrom RuntimeError (exn_str err ++ suffix)%string err)
          /\ (HAS_PYHWP w = false -> suffix = EmptyString)
          /\ (HAS_PYHWP w = true ->
              exists e, extract_with_pyhwp w u cd path = Ok (None, Some e)
                        /\ suffix = (" (pyhwp failed: " ++ exn_str e ++ ")")%string)
          /\ (suffix <> EmptyString <-> In Call_pyhwp (fst (extract_text w u cd path))))
  /\ (forall data streams,
        read_file w path = Ok data ->
        extract_files w data = Ok streams ->
        text_fragments u cd streams = [] ->
        extract_with_hwp_extract w u cd path = Raise no_text_error
        /\ exn_str no_text_error = no_text_message)
  /\ (forall err,
        extract_with_hwp_extract w u cd path = Raise err ->
        read_file w path = Raise err
        \/ (exists data, read_file w path = Ok data /\ extract_files w data = Raise err)
        \/ (err = no_text_error
            /\ exists data streams,
                 read_file w path = Ok data /\ extract_files w data = Ok streams
                 /\ text_fragments u cd streams = [])).
Proof.
  split; [apply try_hwpx_returns|].
  split; [apply extract_with_pyhwp_returns|].
  split; [apply extract_text_error_class|].
  split; [intros err; apply extract_text_exhausted|].
  split.
  - intros data streams Hr Hx Hf. split; [|reflexivity].
    apply (extract_with_hwp_extract_no_text w u cd path data streams Hr Hx Hf).
  - intros err. apply extract_with_hwp_extract_raises.
Qed.

Lemma extract_text_terminal_failure_sample :
  exists suffix,
    snd (extract_text empty_world sample_unicode sample_codecs "empty.hwp")
    = Raise (ExnFrom RuntimeError (no_text_message ++ suffix)%string no_text_error)
    /\ (HAS_PYHWP empty_world = false -> suffix = EmptyString)
    /\ (HAS_PYHWP empty_world = true ->
        exists e, extract_with_pyhwp empty_world sample_unicode sample_codecs "empty.hwp"
                  = Ok (None, Some e)
                  /\ suffix = (" (pyhwp failed: " ++ exn_str e ++ ")")%string)
    /\ (suffix <> EmptyString
        <-> In Call_pyhwp
              (fst (extract_text empty_world sample_unicode sample_codecs "empty.hwp"))).
Proof.
  refine (proj1 (proj2 (proj2 (proj2
    (extract_text_terminal_failure empty_world sample_unicode sample_codecs "empty.hwp"))))
    no_text_error _ _ _).
  - intros c t. vm_compute. discriminate.
  - intros c t e. vm_compute. discriminate.
  - reflexivity.
Defined.

(** C1 as stated fails: no error leaves [extract_text] with the class
    of the extractor's no-password error.  The extractor is built with
    [raise_pw_error=False]; for the protected sample document, whose
    streams hold no body text, what leaves [extract_text] is the
    [RuntimeError] with the fixed message of the terminal failure. *)
Lemma extract_text_protected_document :
  (forall w u cd path e,
     snd (extract_text w u cd path) = Raise e ->
     exn_cls e <> HWPExtractorNoPasswordError)
  /\ extract_text protected_world sample_unicode sample_codecs "secret.hwp"
     = ([Call_try_hwpx; Call_hwp_extract],
        Raise (ExnFrom RuntimeError no_text_message no_text_error))
  /\ exn_cls (ExnFrom RuntimeError no_text_message no_text_error) = RuntimeError
  /\ handler_of (ExnFrom RuntimeError no_text_message no_text_error) = Handle_exception.
Proof.
  split; [|repeat split].
  intros w u cd path e H.
  destruct (extract_text_error w u cd path e H) as (err & suffix & _ & ->).
  discriminate.
Qed.

(** C1 (amended): every error that leaves [extract_text] is a
    [RuntimeError] raised from the error of the raw-stream strategy,
    with that error as its cause and its message in front; it is never
    of the extractor's own classes, and of the three handlers of [main]
    only the last one can take it.  Whatever the class of the error the
    extractor raises once strategies 1 and 2 gave no text, its
    no-password error included, it leaves [extract_text] wrapped in
    this way. *)
Theorem extract_text_wraps_every_error (w : World) (u : UnicodeData) (cd : Codecs)
  (path : string) :
  (forall e,
     snd (extract_text w u cd path) = Raise e ->
     exn_cls e = RuntimeError
     /\ exn_cls e <> HWPExtractorNoPasswordError
     /\ exn_cls e <> HWPExtractorError
     /\ handler_of e = Handle_exception
     /\ exists err suffix,
          extract_with_hwp_extract w u cd path = Raise err
          /\ e = ExnFrom RuntimeError (exn_str err ++ suffix)%string err)
  /\ (forall data err,
        (forall c t, try_hwpx w u cd path <> Ok (Some (c :: t))) ->
        (forall c t e, extract_with_pyhwp w u cd path <> Ok (Some (c :: t), e)) ->
        read_file w path = Ok data ->
        extract_files w data = Raise err ->
        exists suffix,
          snd (extract_text w u cd path)
          = Raise (ExnFrom RuntimeError (exn_str err ++ suffix)%string err)).
Proof.
  split.
  - intros e H.
    destruct (extract_text_error w u cd path e H) as (err & suffix & Herr & ->).
    repeat split; try discriminate. eauto.
  - intros data err H1 H2 Hr Hx.
    assert (Hno : extract_with_hwp_extract w u cd path = Raise err).
    { unfold extract_with_hwp_extract. rewrite Hr. simpl. rewrite Hx. reflexivity. }
    destruct (extract_text_exhausted w u cd path err H1 H2 Hno) as (suffix & E & _).
    eauto.
Qed.

Lemma extract_text_wraps_every_error_sample :
  exists suffix,
    snd (extract_text foreign_world sample_unicode sample_codecs "notes.txt")
    = Raise (ExnFrom RuntimeError ("Not an HWP file" ++ suffix)%string
               (Exn HWPExtractorError "Not an HWP file")).
Proof.
  refine (proj2 (extract_text_wraps_every_error foreign_world sample_unicode
                   sample_codecs "notes.txt")
            (str_of "plain text") (Exn HWPExtractorError "Not an HWP file") _ _ _ _);
    try reflexivity.
  - intros c t. vm_compute. discriminate.
  - intros c t e. vm_compute. discriminate.
Defined.

(** * Further properties of normalize_text *)

Lemma split_lines_nonempty s : split_lines s <> [].
Proof.
  destruct s as [|c t]; simpl; [discriminate|].
  destruct (c =? LF); [discriminate|]. destruct (split_lines t); discriminate.
Qed.

Lemma join_lines_cons l ls :
  ls <> [] -> join_lines (l :: ls) = l ++ LF :: join_lines ls.
Proof. destruct ls; [contradiction|reflexivity]. Qed.

Lemma split_lines_join_any ls :
  Forall (Forall (fun c => c <> LF)) ls -> ls <> [] ->
  split_lines (join_lines ls) = ls.
Proof.
  induction 1 as [|l ls Hl Hls IH]; intros Hne; [contradiction|].
  destruct ls as [|l2 ls].
  - simpl. apply split_lines_line. assumption.
  - rewrite join_lines_cons by discriminate.
    rewrite split_lines_app by assumption. rewrite IH by discriminate. reflexivity.
Qed.

Lemma split_lines_free s : Forall (Forall (fun c => c <> LF)) (split_lines s).
Proof.
  induction s as [|c t IH]; simpl; [repeat constructor|].
  destruct (c =? LF) eqn:E; [constructor; [constructor|assumption]|].
  apply Z.eqb_neq in E. destruct (split_lines t) as [|l ls].
  - repeat constructor. assumption.
  - inversion IH; subst. constructor; [constructor|]; assumption.
Qed.

Lemma join_lines_push c l ls : join_lines ((c :: l) :: ls) = c :: join_lines (l :: ls).
Proof. destruct ls; reflexivity. Qed.

Lemma join_split_lines s : join_lines (split_lines s) = s.
Proof.
  induction s as [|c t IH]; [reflexivity|]. simpl.
  pose proof (split_lines_nonempty t) as Hne.
  destruct (c =? LF) eqn:E.
  - apply Z.eqb_eq in E. subst c.
    rewrite join_lines_cons by assumption. simpl. rewrite IH. reflexivity.
  - destruct (split_lines t) as [|l ls]; [contradiction|].
    rewrite join_lines_push. f_equal. exact IH.
Qed.

(** X1: splitting a text at its newlines and joining the lines with
    newlines gives the text back; joining lines that hold no newline
    and splitting the result gives the lines back; and the lines of a
    split are at least one and hold no newline. *)
Theorem split_join_round_trip :
  (forall s, join_lines (split_lines s) = s)
  /\ (forall ls, Forall (Forall (fun c => c <> LF)) ls -> ls <> [] ->
                 split_lines (join_lines ls) = ls)
  /\ (forall s, split_lines s <> [] /\ Forall (Forall (fun c => c <> LF)) (split_lines s)).
Proof.
  split; [apply join_split_lines|]. split; [apply split_lines_join_any|].
  intros s. split; [apply split_lines_nonempty|apply split_lines_free].
Qed.

(** X2: a text is left as it is by [normalize_text] exactly when it is
    the join of lines of the kind the loop appends. *)
Theorem normalize_text_fixed_points (u : UnicodeData) (s : pystr) :
  normalize_text u s = s <-> exists ls, Forall (sanitized u) ls /\ s = join_lines ls.
Proof.
  split.
  - intros H. exists (sanitized_lines u (split_lines (clean s))).
    split; [apply sanitized_lines_sound|]. symmetry. exact H.
  - intros (ls & Hls & ->). apply normalize_text_join. assumption.
Qed.

(** ** Lengths *)

Lemma filter_length_Z (p : Z -> bool) s : (length (filter p s) <= length s)%nat.
Proof. apply filter_length_le. Qed.

Lemma replace_crlf_length s : (length (replace_crlf s) <= length s)%nat.
Proof.
  assert (H : forall n s, (length s <= n)%nat -> (length (replace_crlf s) <= length s)%nat).
  { induction n as [|n IH]; intros r Hn.
    - destruct r; simpl in *; lia.
    - destruct r as [|c [|d t]]; [simpl; lia|simpl; lia|].
      change (replace_crlf (c :: d :: t))
        with (if (c =? CR) && (d =? LF) then LF :: replace_crlf t
              else c :: replace_crlf (d :: t)).
      simpl length in Hn.
      destruct ((c =? CR) && (d =? LF)); simpl length.
      + pose proof (IH t ltac:(lia)). lia.
      + pose proof (IH (d :: t) ltac:(simpl; lia)) as H. simpl length in H. lia. }
  apply (H (length s)). lia.
Qed.

Lemma collapse_newlines_from_length s :
  forall k, (length (collapse_newlines_from k s) <= length s)%nat.
Proof.
  induction s as [|c t IH]; intros k; simpl; [lia|].
  destruct (c =? LF).
  - destruct k as [|[|k]]; simpl.
    + pose proof (IH 1%nat). lia.
    + pose proof (IH 2%nat). lia.
    + pose proof (IH (S (S k))). lia.
  - simpl. pose proof (IH 0%nat). lia.
Qed.

Lemma clean_length s : (length (clean s) <= length s)%nat.
Proof.
  unfold clean, collapse_newlines, remove_control, remove_nul, replace_cr.
  pose proof (collapse_newlines_from_length
                (filter (fun c => negb (is_control c))
                   (filter (fun c => negb (c =? 0))
                      (map (fun c => if c =? CR then LF else c) (replace_crlf s)))) 0).
  pose proof (filter_length_Z (fun c => negb (is_control c))
                (filter (fun c => negb (c =? 0))
                   (map (fun c => if c =? CR then LF else c) (replace_crlf s)))).
  pose proof (filter_length_Z (fun c => negb (c =? 0))
                (map (fun c => if c =? CR then LF else c) (replace_crlf s))).
  pose proof (replace_crlf_length s).
  rewrite length_map in *. lia.
Qed.

Lemma collapse_ws_from_length s :
  forall b, (length (collapse_ws_from b s) <= length s)%nat.
Proof.
  induction s as [|c t IH]; intros b; simpl; [lia|].
  pose proof (IH true). pose proof (IH false).
  destruct (isspace c); [destruct b|]; simpl; lia.
Qed.

Lemma lstrip_length s : (length (lstrip s) <= length s)%nat.
Proof.
  induction s as [|c t IH]; simpl; [lia|]. destruct (isspace c); simpl; lia.
Qed.

Lemma rstrip_length s : (length (rstrip s) <= length s)%nat.
Proof.
  induction s as [|c t IH]; [simpl; lia|].
  rewrite rstrip_cons. destruct (rstrip t); [destruct (isspace c)|]; simpl in *; lia.
Qed.

Lemma strip_length s : (length (strip s) <= length s)%nat.
Proof.
  unfold strip. pose proof (rstrip_length (lstrip s)). pose proof (lstrip_length s). lia.
Qed.

Lemma span_of_length s x : span_of s x -> (length x <= length s)%nat.
Proof.
  intros [_ (pre & post & ->)]. rewrite !length_app. lia.
Qed.

Lemma best_span_length u line span :
  best_span u line = Some span -> (length span <= length line)%nat.
Proof.
  unfold best_span.
  set (fl := strip (collapse_ws (filter (is_allowed_char u) line))).
  assert (Hfl : (length fl <= length line)%nat).
  { unfold fl, collapse_ws.
    pose proof (strip_length (collapse_ws_from false (filter (is_allowed_char u) line))).
    pose proof (collapse_ws_from_length (filter (is_allowed_char u) line) false).
    pose proof (filter_length_Z (is_allowed_char u) line). lia. }
  destruct fl as [|c0 fl'] eqn:E; [discriminate|]. rewrite <- E in *. clear E c0 fl'.
  pose proof (proj1 (findall_spans_sound fl)) as Hall.
  destruct (findall_spans fl) as [|first others]; [discriminate|].
  pose proof (longest_from_In others first) as Hin.
  rewrite Forall_forall in Hall. apply Hall, span_of_length in Hin.
  pose proof (strip_length (longest_from first others)) as Hs.
  destruct (strip (longest_from first others)) as [|c r] eqn:E; [discriminate|].
  intros [= <-]. lia.
Qed.

Lemma sanitize_line_length u line l :
  sanitize_line u line = Some l -> (length l <= length line)%nat.
Proof.
  unfold sanitize_line. destruct (best_span u line) as [span|] eqn:E; [|discriminate].
  destruct (passes_gate u span); [|discriminate]. intros [= <-].
  exact (best_span_length _ _ _ E).
Qed.

Lemma join_lines_size ls : ls <> [] -> S (length (join_lines ls)) = lines_size ls.
Proof.
  induction ls as [|l ls IH]; intros Hne; [contradiction|].
  destruct ls as [|l2 ls].
  - simpl. lia.
  - pose proof (IH ltac:(discriminate)) as H.
    rewrite join_lines_cons by discriminate. rewrite length_app.
    change (lines_size (l :: l2 :: ls)) with (S (length l + lines_size (l2 :: ls))).
    change (length (LF :: join_lines (l2 :: ls)))
      with (S (length (join_lines (l2 :: ls)))).
    lia.
Qed.

Lemma sanitized_lines_size u ls : (lines_size (sanitized_lines u ls) <= lines_size ls)%nat.
Proof.
  induction ls as [|l ls IH]; simpl; [lia|].
  destruct (sanitize_line u l) as [l'|] eqn:E; simpl; [|lia].
  apply sanitize_line_length in E. lia.
Qed.

(** X3: [normalize_text] never makes a text longer. *)
Theorem normalize_text_length (u : UnicodeData) (s : pystr) :
  (length (normalize_text u s) <= length s)%nat.
Proof.
  unfold normalize_text.
  pose proof (clean_length s) as Hc.
  pose proof (join_split_lines (clean s)) as Hj.
  pose proof (split_lines_nonempty (clean s)) as Hne.
  pose proof (sanitized_lines_size u (split_lines (clean s))) as Hs.
  pose proof (join_lines_size (split_lines (clean s)) Hne) as H1.
  rewrite Hj in H1.
  destruct (sanitized_lines u (split_lines (clean s))) as [|l ls] eqn:E; [simpl; lia|].
  pose proof (join_lines_size (l :: ls)) as H2.
  specialize (H2 ltac:(discriminate)). lia.
Qed.

(** ** Line endings *)

Lemma replace_crlf_other c r : c <> CR -> replace_crlf (c :: r) = c :: replace_crlf r.
Proof.
  intros H. apply Z.eqb_neq in H. destruct r as [|d t]; [reflexivity|].
  change (replace_crlf (c :: d :: t))
    with (if (c =? CR) && (d =? LF) then LF :: replace_crlf t
          else c :: replace_crlf (d :: t)).
  rewrite H. reflexivity.
Qed.

Lemma replace_crlf_to_crlf s :
  Forall (fun c => c <> CR) s -> replace_crlf (to_crlf s) = s.
Proof.
  induction 1 as [|c s Hc _ IH]; [reflexivity|].
  unfold to_crlf in *. simpl flat_map. destruct (c =? LF) eqn:E.
  - apply Z.eqb_eq in E. subst c.
    change (replace_crlf ([CR; LF] ++ flat_map (fun c => if c =? LF then [CR; LF] else [c]) s))
      with (LF :: replace_crlf (flat_map (fun c => if c =? LF then [CR; LF] else [c]) s)).
    rewrite IH. reflexivity.
  - simpl app. rewrite replace_crlf_other by assumption. rewrite IH. reflexivity.
Qed.

Lemma replace_crlf_no_newline r :
  Forall (fun c => c <> LF) r -> replace_crlf r = r.
Proof.
  induction 1 as [|c r Hc Hr IH]; [reflexivity|].
  destruct r as [|d t]; [reflexivity|].
  change (replace_crlf (c :: d :: t))
    with (if (c =? CR) && (d =? LF) then LF :: replace_crlf t
          else c :: replace_crlf (d :: t)).
  inversion Hr as [|? ? Hd _]; subst. apply Z.eqb_neq in Hd.
  rewrite Hd, andb_false_r, IH. reflexivity.
Qed.

Lemma to_cr_no_newline s : Forall (fun c => c <> LF) (to_cr s).
Proof.
  unfold to_cr. induction s as [|c s IH]; simpl; constructor; [|assumption].
  destruct (c =? LF) eqn:E; [discriminate|]. apply Z.eqb_neq. assumption.
Qed.

Lemma replace_cr_to_cr s : Forall (fun c => c <> CR) s -> replace_cr (to_cr s) = s.
Proof.
  unfold replace_cr, to_cr. induction 1 as [|c s Hc _ IH]; simpl; [reflexivity|].
  rewrite IH. destruct (c =? LF) eqn:E.
  - apply Z.eqb_eq in E. subst c. reflexivity.
  - apply Z.eqb_neq in Hc. rewrite Hc. reflexivity.
Qed.

(** X4: the three line-ending conventions give the same result: for a
    text with no carriage return, writing its newlines as carriage
    return and newline, or as carriage returns, does not change what
    [normalize_text] returns. *)
Theorem normalize_text_line_endings (u : UnicodeData) (s : pystr) :
  Forall (fun c => c <> CR) s ->
  normalize_text u (to_crlf s) = normalize_text u s
  /\ normalize_text u (to_cr s) = normalize_text u s.
Proof.
  intros H. unfold normalize_text, clean. split.
  - rewrite replace_crlf_to_crlf by assumption.
    rewrite (replace_crlf_id s) by assumption. reflexivity.
  - rewrite (replace_crlf_no_newline (to_cr s)) by apply to_cr_no_newline.
    rewrite replace_cr_to_cr by assumption.
    rewrite (replace_crlf_id s), (replace_cr_id s) by assumption. reflexivity.
Qed.

Lemma normalize_text_line_endings_sample :
  normalize_text sample_unicode (to_crlf (str_of "one two" ++ [LF] ++ str_of "three"))
  = normalize_text sample_unicode (str_of "one two" ++ [LF] ++ str_of "three")
  /\ normalize_text sample_unicode (to_cr (str_of "one two" ++ [LF] ++ str_of "three"))
     = normalize_text sample_unicode (str_of "one two" ++ [LF] ++ str_of "three").
Proof.
  apply normalize_text_line_endings. repeat constructor; discriminate.
Defined.

(** ** The gate on the spans that reach it *)

Lemma count_cons p c s : count p (c :: s) = (if p c then 1 else 0) + count p s.
Proof. unfold count. simpl. destruct (p c); simpl length; lia. Qed.

(** X5: where ASCII letters, digits and Hangul syllables are
    alphanumeric, a span that reaches the quality gate has an
    alphanumeric character, so the test for none never rejects; the
    line is kept exactly when a fifth of the span's alphanumeric
    characters are Hangul or the span has a Latin letter. *)
Theorem gate_on_best_span (u : UnicodeData) (line span : pystr) :
  (forall c, span_start c = true -> isalnum u c = true) ->
  best_span u line = Some span ->
  0 < count (isalnum u) span
  /\ (sanitize_line u line = Some span
      <-> count (isalnum u) span <= 5 * count is_hangul span
          \/ existsb is_latin span = true).
Proof.
  intros Halnum E.
  destruct (best_span_sound _ _ _ E) as ((c & r & -> & Hc) & _).
  assert (Hpos : 0 < count (isalnum u) (c :: r)).
  { rewrite count_cons, (Halnum _ Hc). pose proof (count_nonneg (isalnum u) r). lia. }
  split; [exact Hpos|].
  rewrite (sanitize_line_gate _ _ _ E). unfold passes_gate. cbv zeta.
  replace (count (isalnum u) (c :: r) =? 0) with false
    by (symmetry; apply Z.eqb_neq; lia).
  destruct (existsb is_latin (c :: r)) eqn:E2.
  - rewrite andb_false_r. split; auto.
  - rewrite andb_true_r.
    destruct (5 * count is_hangul (c :: r) <? count (isalnum u) (c :: r)) eqn:E1.
    + apply Z.ltb_lt in E1. split; [discriminate|].
      intros [H|H]; [lia|discriminate].
    + apply Z.ltb_ge in E1. split; auto.
Qed.

Lemma gate_on_best_span_sample :
  0 < count (isalnum sample_unicode) (str_of "report 2024")
  /\ (sanitize_line sample_unicode (str_of "## report 2024 ##") = Some (str_of "report 2024")
      <-> count (isalnum sample_unicode) (str_of "report 2024")
          <= 5 * count is_hangul (str_of "report 2024")
          \/ existsb is_latin (str_of "report 2024") = true).
Proof.
  apply (gate_on_best_span sample_unicode (str_of "## report 2024 ##")).
  - intros c H. simpl. unfold span_start in H.
    destruct (is_hangul c), (is_latin c), (is_digit c); simpl in *; congruence.
  - reflexivity.
Defined.

(** * Further properties of try_hwpx *)

(** ** strip_tags *)

Lemma strip_tags_from_close s :
  forall b, existsb (Z.eqb GT) (strip_tags_from b s) = true ->
            existsb (Z.eqb GT) s = true.
Proof.
  induction s as [|c t IH]; intros b H; [destruct b; discriminate|].
  simpl in *. destruct b.
  - destruct (c =? GT) eqn:E.
    + apply Z.eqb_eq in E. subst c. reflexivity.
    + rewrite (IH _ H). apply orb_true_r.
  - destruct ((c =? LT) && tag_closes t).
    + simpl in H. rewrite (IH _ H). apply orb_true_r.
    + simpl in H. apply orb_true_iff in H as [H|H].
      * rewrite H. reflexivity.
      * rewrite (IH _ H). apply orb_true_r.
Qed.

Lemma tag_closes_after_strip t :
  tag_closes t = false -> tag_closes (strip_tags_from false t) = false.
Proof.
  intros H. destruct t as [|d t']; [reflexivity|].
  unfold tag_closes in H. apply andb_false_iff in H as [H|H].
  - apply negb_false_iff, Z.eqb_eq in H. subst d. reflexivity.
  - destruct (existsb (Z.eqb GT) (strip_tags_from false (d :: t'))) eqn:E.
    + apply strip_tags_from_close in E. congruence.
    + unfold tag_closes. destruct (strip_tags_from false (d :: t')); [reflexivity|].
      rewrite E. apply andb_false_r.
Qed.

Lemma strip_tags_from_no_tag s : forall b, no_tag_left (strip_tags_from b s) = true.
Proof.
  induction s as [|c t IH]; intros b; [destruct b; reflexivity|].
  simpl. destruct b.
  - destruct (c =? GT); apply IH.
  - destruct ((c =? LT) && tag_closes t) eqn:E.
    + simpl. apply IH.
    + simpl. rewrite IH, andb_true_r. apply negb_true_iff.
      apply andb_false_iff in E as [E|E]; [rewrite E; reflexivity|].
      rewrite (tag_closes_after_strip _ E). apply andb_false_r.
Qed.

Lemma strip_tags_no_tag_id s : no_tag_left s = true -> strip_tags_from false s = s.
Proof.
  induction s as [|c t IH]; intros H; [reflexivity|].
  simpl in *. apply andb_true_iff in H as [H1 H2].
  apply negb_true_iff in H1. rewrite H1, (IH H2). reflexivity.
Qed.

Lemma no_open_no_tag s : existsb (Z.eqb LT) s = false -> no_tag_left s = true.
Proof.
  induction s as [|c t IH]; intros H; [reflexivity|].
  cbn [existsb no_tag_left] in *. apply orb_false_iff in H as [H1 H2].
  rewrite Z.eqb_sym in H1. rewrite H1, (IH H2). reflexivity.
Qed.

Lemma strip_tags_from_length s :
  forall b, (length (strip_tags_from b s) <= length s)%nat.
Proof.
  induction s as [|c t IH]; intros b; [destruct b; simpl; lia|].
  pose proof (IH true). pose proof (IH false). simpl.
  destruct b; [destruct (c =? GT)|destruct ((c =? LT) && tag_closes t)]; simpl; lia.
Qed.

(** X6: after [strip_tags] no tag is left in the text, so stripping
    again changes nothing; a text with no [<] is returned as it is; and
    the text does not get longer. *)
Theorem strip_tags_removes_tags (s : pystr) :
  no_tag_left (strip_tags s) = true
  /\ strip_tags (strip_tags s) = strip_tags s
  /\ (existsb (Z.eqb LT) s = false -> strip_tags s = s)
  /\ (length (strip_tags s) <= length s)%nat.
Proof.
  unfold strip_tags. repeat split.
  - apply strip_tags_from_no_tag.
  - apply strip_tags_no_tag_id, strip_tags_from_no_tag.
  - intros H. apply strip_tags_no_tag_id, no_open_no_tag. assumption.
  - apply strip_tags_from_length.
Qed.

(** ** sorted *)

Lemma pystr_leb_refl a : pystr_leb a a = true.
Proof.
  induction a as [|x a IH]; [reflexivity|]. simpl.
  rewrite Z.eqb_refl, IH. apply orb_true_r.
Qed.

Lemma pystr_leb_total a : forall b, pystr_leb a b = true \/ pystr_leb b a = true.
Proof.
  induction a as [|x a IH]; intros [|y b]; simpl; auto.
  destruct (Z.lt_trichotomy x y) as [H|[H|H]].
  - left. apply Z.ltb_lt in H. rewrite H. reflexivity.
  - subst y. rewrite Z.ltb_irrefl, Z.eqb_refl. simpl. apply IH.
  - right. apply Z.ltb_lt in H. rewrite H. reflexivity.
Qed.

Lemma pystr_leb_antisym a :
  forall b, pystr_leb a b = true -> pystr_leb b a = true -> a = b.
Proof.
  induction a as [|x a IH]; intros [|y b]; simpl; intros H1 H2;
    try reflexivity; try discriminate.
  apply orb_true_iff in H1. apply orb_true_iff in H2.
  rewrite andb_true_iff, Z.ltb_lt, Z.eqb_eq in H1, H2.
  destruct H1 as [H1|[E1 H1]], H2 as [H2|[E2 H2]]; try lia.
  subst y. f_equal. apply IH; assumption.
Qed.

Lemma pystr_leb_trans a :
  forall b c, pystr_leb a b = true -> pystr_leb b c = true -> pystr_leb a c = true.
Proof.
  induction a as [|x a IH]; intros [|y b] [|z c]; simpl; intros H1 H2;
    try reflexivity; try discriminate.
  apply orb_true_iff in H1. apply orb_true_iff in H2. apply orb_true_iff.
  rewrite andb_true_iff, Z.ltb_lt, Z.eqb_eq in *.
  destruct H1 as [H1|[E1 H1]], H2 as [H2|[E2 H2]].
  - left. lia.
  - left. lia.
  - left. lia.
  - right. split; [lia|]. exact (IH _ _ H1 H2).
Qed.

Lemma insert_sorted_perm x l : Permutation (x :: l) (insert_sorted x l).
Proof.
  induction l as [|y l IH]; simpl; [reflexivity|].
  destruct (pystr_leb x y); [reflexivity|].
  rewrite perm_swap. apply perm_skip. exact IH.
Qed.

Lemma sorted_perm l : Permutation l (sorted l).
Proof.
  induction l as [|x l IH]; simpl; [reflexivity|].
  rewrite <- insert_sorted_perm. apply perm_skip. exact IH.
Qed.

Lemma insert_sorted_ordered x l :
  StronglySorted pystr_le l -> StronglySorted pystr_le (insert_sorted x l).
Proof.
  induction 1 as [|y l Hl IH Hy]; simpl; [repeat constructor|].
  destruct (pystr_leb x y) eqn:E.
  - constructor; [constructor; assumption|].
    constructor; [exact E|].
    eapply Forall_impl; [|exact Hy]. intros z Hz. exact (pystr_leb_trans _ _ _ E Hz).
  - constructor; [exact IH|].
    assert (Hyx : pystr_le y x).
    { destruct (pystr_leb_total x y) as [H|H]; [congruence|exact H]. }
    rewrite <- (insert_sorted_perm x l). constructor; assumption.
Qed.

Lemma sorted_ordered l : StronglySorted pystr_le (sorted l).
Proof.
  induction l as [|x l IH]; simpl; [constructor|]. apply insert_sorted_ordered, IH.
Qed.

Lemma ordered_unique l1 :
  forall l2, StronglySorted pystr_le l1 -> StronglySorted pystr_le l2 ->
             Permutation l1 l2 -> l1 = l2.
Proof.
  induction l1 as [|a l1 IH]; intros l2 H1 H2 HP.
  - apply Permutation_nil in HP. congruence.
  - destruct l2 as [|b l2]; [apply Permutation_sym, Permutation_nil in HP; discriminate|].
    inversion H1 as [|? ? S1 F1]; subst. inversion H2 as [|? ? S2 F2]; subst.
    assert (Eab : a = b).
    { rewrite Forall_forall in F1, F2.
      assert (Ha : In a (b :: l2)) by (apply (Permutation_in _ HP); left; reflexivity).
      assert (Hb : In b (a :: l1))
        by (apply (Permutation_in _ (Permutation_sym HP)); left; reflexivity).
      destruct Ha as [Ha|Ha]; [congruence|]. destruct Hb as [Hb|Hb]; [congruence|].
      apply pystr_leb_antisym; [apply F1|apply F2]; assumption. }
    subst b. f_equal. apply IH; try assumption.
    exact (Permutation_cons_inv HP).
Qed.

Lemma sorted_of_permutation l1 l2 : Permutation l1 l2 -> sorted l1 = sorted l2.
Proof.
  intros HP. apply ordered_unique; try apply sorted_ordered.
  rewrite <- (sorted_perm l1), <- (sorted_perm l2). exact HP.
Qed.

Lemma filter_permutation (p : pystr -> bool) l1 l2 :
  Permutation l1 l2 -> Permutation (filter p l1) (filter p l2).
Proof.
  induction 1 as [|x l1 l2 _ IH|x y l|l1 l2 l3 _ IH1 _ IH2]; simpl.
  - reflexivity.
  - destruct (p x); [apply perm_skip|]; exact IH.
  - destruct (p x), (p y); try reflexivity. apply perm_swap.
  - etransitivity; eassumption.
Qed.

Lemma mapM_ext {A B} (f g : A -> result B) l :
  (forall a, f a = g a) -> mapM f l = mapM g l.
Proof.
  intros H. induction l as [|a l IH]; simpl; [reflexivity|]. rewrite H, IH. reflexivity.
Qed.

Lemma pystr_eqb_eq a : forall b, pystr_eqb a b = true <-> a = b.
Proof.
  induction a as [|x a IH]; intros [|y b]; simpl; split; intros H;
    try reflexivity; try discriminate.
  - apply andb_true_iff in H as [H1 H2]. apply Z.eqb_eq in H1. apply IH in H2.
    congruence.
  - injection H as -> ->. rewrite Z.eqb_refl. apply IH. reflexivity.
Qed.

(** X7: the sections are read in the order of their names (the result
    of [sorted] is an ordered permutation), so the text [try_hwpx]
    returns does not depend on the order of the container's directory:
    two files with the same first four bytes whose containers hold the
    same entries under the same names, listed in different orders, give
    the same result. *)
Theorem try_hwpx_directory_order (w1 w2 : World) (u : UnicodeData) (cd : Codecs)
  (path : string) (a1 a2 : archive) :
  same_signature (read_file w1 path) (read_file w2 path) ->
  ZipFile w1 path = Ok a1 -> ZipFile w2 path = Ok a2 ->
  Permutation (namelist a1) (namelist a2) ->
  (forall name, read_entry a1 name = read_entry a2 name) ->
  StronglySorted pystr_le (sorted (section_entries u a1))
  /\ Permutation (section_entries u a1) (sorted (section_entries u a1))
  /\ try_hwpx w1 u cd path = try_hwpx w2 u cd path.
Proof.
  intros Hr H1 H2 HP Hread.
  split; [apply sorted_ordered|]. split; [apply sorted_perm|].
  unfold try_hwpx, same_signature in *.
  destruct (read_file w1 path) as [d1|e1] eqn:R1;
    destruct (read_file w2 path) as [d2|e2] eqn:R2; try contradiction.
  - destruct (pystr_eqb (firstn 4 d1) zip_signature) eqn:Es.
    + apply pystr_eqb_eq in Es.
      rewrite (try_hwpx_body_zip w1 u cd path d1 a1) by assumption.
      rewrite (try_hwpx_body_zip w2 u cd path d2 a2) by congruence.
      assert (HPs : Permutation (section_entries u a1) (section_entries u a2)).
      { apply filter_permutation. exact HP. }
      pose proof (sorted_of_permutation _ _ HPs) as Eso.
      destruct (section_entries u a1) as [|n1 l1] eqn:E1;
        destruct (section_entries u a2) as [|n2 l2] eqn:E2.
      * reflexivity.
      * apply Permutation_nil in HPs. discriminate.
      * apply Permutation_sym, Permutation_nil in HPs. discriminate.
      * rewrite Eso.
        rewrite (mapM_ext (read_section cd a1) (read_section cd a2)); [reflexivity|].
        intros name. unfold read_section. rewrite Hread. reflexivity.
    + unfold try_hwpx_body. rewrite R1, R2. unfold bind. cbv zeta.
      rewrite <- Hr, Es. reflexivity.
  - unfold try_hwpx_body. rewrite R1, R2. reflexivity.
Qed.

Lemma try_hwpx_directory_order_sample :
  read_file hwpx_world "doc.hwpx" <> read_file hwpx_world_reordered "doc.hwpx"
  /\ StronglySorted pystr_le (sorted (section_entries sample_unicode hwpx_archive))
  /\ Permutation (section_entries sample_unicode hwpx_archive)
                 (sorted (section_entries sample_unicode hwpx_archive))
  /\ try_hwpx hwpx_world sample_unicode sample_codecs "doc.hwpx"
     = try_hwpx hwpx_world_reordered sample_unicode sample_codecs "doc.hwpx".
Proof.
  split; [discriminate|].
  apply (try_hwpx_directory_order hwpx_world hwpx_world_reordered sample_unicode
           sample_codecs "doc.hwpx" hwpx_archive hwpx_archive_reordered);
    try reflexivity.
  apply perm_swap.
Defined.

Lemma normalize_text_again u s :
  normalize_text u (normalize_text u s) = normalize_text u s.
Proof.
  unfold normalize_text at 2 3. apply normalize_text_join, sanitized_lines_sound.
Qed.

Lemma try_hwpx_text_fixed w u cd path t :
  try_hwpx w u cd path = Ok (Some t) -> normalize_text u t = t.
Proof.
  unfold try_hwpx, try_hwpx_body, try_except.
  destruct (read_file w path) as [data|e]; [|discriminate].
  unfold bind at 1. cbv zeta.
  destruct (negb (pystr_eqb (firstn 4 data) zip_signature)); [discriminate|].
  destruct (ZipFile w path) as [a|e]; [|discriminate].
  unfold bind at 1.
  destruct (section_entries u a) as [|n ns]; [discriminate|].
  destruct (mapM (read_section cd a) (sorted (n :: ns))) as [texts|e]; [|discriminate].
  simpl. intros [= <-]. apply normalize_text_again.
Qed.

Lemma try_hwpx_not_zip w u cd path data :
  read_file w path = Ok data -> firstn 4 data <> zip_signature ->
  try_hwpx w u cd path = Ok None.
Proof.
  intros Hr Hs. unfold try_hwpx, try_hwpx_body. rewrite Hr.
  unfold bind at 1. cbv zeta.
  destruct (pystr_eqb (firstn 4 data) zip_signature) eqn:E; [|reflexivity].
  apply pystr_eqb_eq in E. contradiction.
Qed.

(** X8: [try_hwpx] gives [None] for every readable file that does not
    start with the four signature bytes, a file shorter than four bytes
    among them, and for every container without a section entry; a text
    it returns is a fixed point of [normalize_text]. *)
Theorem try_hwpx_inapplicable (w : World) (u : UnicodeData) (cd : Codecs)
  (path : string) :
  (forall data, read_file w path = Ok data -> firstn 4 data <> zip_signature ->
                try_hwpx w u cd path = Ok None)
  /\ (forall data, read_file w path = Ok data -> (length data < 4)%nat ->
                   try_hwpx w u cd path = Ok None)
  /\ (forall data a, read_file w path = Ok data -> firstn 4 data = zip_signature ->
                     ZipFile w path = Ok a -> section_entries u a = [] ->
                     try_hwpx w u cd path = Ok None)
  /\ (forall t, try_hwpx w u cd path = Ok (Some t) -> normalize_text u t = t).
Proof.
  pose proof (try_hwpx_not_zip w u cd path) as H1.
  split; [exact H1|]. split; [|split].
  - intros data Hr Hlen. apply (H1 data Hr). intros E.
    apply (f_equal (@length Z)) in E. rewrite length_firstn in E.
    change (length zip_signature) with 4%nat in E. lia.
  - intros data a Hr Hs Hz He. unfold try_hwpx.
    rewrite (try_hwpx_body_zip w u cd path data a) by assumption.
    rewrite He. reflexivity.
  - intros t. apply try_hwpx_text_fixed.
Qed.

(** * Further properties of the strategies *)

Lemma normalized_alphabet u s : Forall (fun c => span_alphabet c = true) (normalize_text u s).
Proof. apply (sanitized_join_alphabet u), sanitized_lines_sound. Qed.

Lemma after_normalization_fixed u text :
  (exists c t, after_normalization u text = (Some (c :: t), None)
               /\ normalize_text u (c :: t) = c :: t)
  \/ (exists e, after_normalization u text = (None, Some e)).
Proof.
  unfold after_normalization. pose proof (normalize_text_again u text) as H.
  destruct (normalize_text u text) as [|c t]; simpl; [right; eauto|left].
  exists c, t. auto.
Qed.

Lemma extract_with_pyhwp_cases w u cd path :
  HAS_PYHWP w = true ->
  (exists c t, extract_with_pyhwp w u cd path = Ok (Some (c :: t), None)
               /\ normalize_text u (c :: t) = c :: t)
  \/ (exists e, extract_with_pyhwp w u cd path = Ok (None, Some e)).
Proof.
  intros H. unfold extract_with_pyhwp. rewrite H. simpl negb. cbv iota.
  unfold extract_with_pyhwp_body, try_except.
  destruct (transform_hwp5_to_text w path) as [raw|e]; simpl; [|eauto].
  destruct (bytes_blank raw).
  - destruct (transform_hwp5_to_html w path) as [raw'|e]; simpl; [|eauto].
    destruct (bytes_blank raw'); [eauto|].
    destruct (decode_replace cd raw') as [html|e]; simpl; [|eauto].
    destruct (text_content w html) as [text|e]; simpl; [|eauto].
    destruct (after_normalization_fixed u text) as [(c & t & -> & F)|(e & ->)]; eauto.
  - destruct (decode_replace cd raw) as [text|e]; simpl; [|eauto].
    destruct (after_normalization_fixed u text) as [(c & t & -> & F)|(e & ->)]; eauto.
Qed.

Lemma extract_with_pyhwp_text_fixed w u cd path t pe :
  extract_with_pyhwp w u cd path = Ok (Some t, pe) -> normalize_text u t = t.
Proof.
  intros E. destruct (HAS_PYHWP w) eqn:H.
  - destruct (extract_with_pyhwp_cases w u cd path H) as [(c & r & E1 & F)|(e & E1)];
      rewrite E1 in E; [|discriminate].
    injection E as <- _. exact F.
  - unfold extract_with_pyhwp in E. rewrite H in E. discriminate.
Qed.

(** X9: [extract_with_pyhwp] reports through its result and never
    raises.  Without the library it gives no text and the import error.
    With it, it gives either a non-empty text that [normalize_text]
    leaves unchanged and no error, or no text and an error; an error
    raised by the text transform is that error, and two blank outputs
    give the [ValueError] of no output. *)
Theorem extract_with_pyhwp_contract (w : World) (u : UnicodeData) (cd : Codecs)
  (path : string) :
  (HAS_PYHWP w = false ->
   extract_with_pyhwp w u cd path = Ok (None, PYHWP_IMPORT_ERROR w)
   /\ PYHWP_IMPORT_ERROR w <> None)
  /\ (HAS_PYHWP w = true ->
      (exists c t, extract_with_pyhwp w u cd path = Ok (Some (c :: t), None)
                   /\ normalize_text u (c :: t) = c :: t)
      \/ (exists e, extract_with_pyhwp w u cd path = Ok (None, Some e)))
  /\ (forall e, HAS_PYHWP w = true -> transform_hwp5_to_text w path = Raise e ->
                extract_with_pyhwp w u cd path = Ok (None, Some e))
  /\ (forall raw raw', HAS_PYHWP w = true ->
        transform_hwp5_to_text w path = Ok raw -> bytes_blank raw = true ->
        transform_hwp5_to_html w path = Ok raw' -> bytes_blank raw' = true ->
        extract_with_pyhwp w u cd path
        = Ok (None, Some (Exn ValueError "pyhwp produced no output"))).
Proof.
  split; [|split; [|split]].
  - intros H. unfold extract_with_pyhwp, PYHWP_IMPORT_ERROR. rewrite H. split; [reflexivity|].
    unfold HAS_PYHWP in H. destruct (pyhwp_import w); [discriminate|discriminate].
  - apply extract_with_pyhwp_cases.
  - intros e H Ht. unfold extract_with_pyhwp, extract_with_pyhwp_body.
    rewrite H, Ht. reflexivity.
  - intros raw raw' H Ht Hb Hh Hb'. unfold extract_with_pyhwp, extract_with_pyhwp_body.
    rewrite H, Ht. simpl negb. cbv iota. unfold bind at 1. rewrite Hb, Hh.
    unfold bind at 1. rewrite Hb'. reflexivity.
Qed.

(** ** extract_with_hwp_extract *)

Lemma text_fragments_app u cd s1 s2 :
  text_fragments u cd (s1 ++ s2) = text_fragments u cd s1 ++ text_fragments u cd s2.
Proof.
  induction s1 as [|s rest IH]; [reflexivity|]. cbn [app text_fragments].
  destruct (negb (is_body_stream u s)); [exact IH|].
  destruct (negb (truthy (strip (smart_decode u cd (stream_data s))))); [exact IH|].
  destruct (truthy (normalize_text u (strip (smart_decode u cd (stream_data s)))));
    [|exact IH].
  rewrite IH. reflexivity.
Qed.

Lemma text_fragments_body_only u cd streams :
  text_fragments u cd (filter (is_body_stream u) streams) = text_fragments u cd streams.
Proof.
  induction streams as [|s rest IH]; [reflexivity|]. cbn [filter].
  destruct (is_body_stream u s) eqn:E; cbn [text_fragments]; rewrite E; simpl negb;
    cbv iota; [|exact IH].
  destruct (negb (truthy (strip (smart_decode u cd (stream_data s))))); [exact IH|].
  destruct (truthy (normalize_text u (strip (smart_decode u cd (stream_data s)))));
    [|exact IH].
  rewrite IH. reflexivity.
Qed.

Lemma text_fragments_normalized u cd streams :
  Forall (fun f => f <> [] /\ normalize_text u f = f
                   /\ Forall (fun c => span_alphabet c = true) f)
         (text_fragments u cd streams).
Proof.
  induction streams as [|s rest IH]; [constructor|]. cbn [text_fragments].
  destruct (negb (is_body_stream u s)); [exact IH|].
  destruct (negb (truthy (strip (smart_decode u cd (stream_data s))))); [exact IH|].
  destruct (truthy (normalize_text u (strip (smart_decode u cd (stream_data s))))) eqn:E;
    [|exact IH].
  constructor; [|exact IH]. repeat split.
  - intros C. rewrite C in E. discriminate.
  - apply normalize_text_again.
  - apply normalized_alphabet.
Qed.

Lemma join_blank_Forall (P : Z -> Prop) ls :
  P LF -> Forall (Forall P) ls -> Forall P (join_blank ls).
Proof.
  intros HP. induction 1 as [|l ls Hl Hls IH]; [constructor|].
  destruct ls as [|l2 ls]; [exact Hl|].
  change (join_blank (l :: l2 :: ls)) with (l ++ LF :: LF :: join_blank (l2 :: ls)).
  apply Forall_app. split; [assumption|]. repeat constructor; assumption.
Qed.

Lemma join_blank_nonempty l ls : l <> [] -> join_blank (l :: ls) <> [].
Proof.
  intros H. destruct ls as [|l2 ls']; [exact H|].
  change (join_blank (l :: l2 :: ls')) with (l ++ LF :: LF :: join_blank (l2 :: ls')).
  destruct l; [contradiction|discriminate].
Qed.

Lemma extract_with_hwp_extract_text w u cd path t :
  extract_with_hwp_extract w u cd path = Ok t ->
  t <> [] /\ Forall (fun c => span_alphabet c = true) t.
Proof.
  unfold extract_with_hwp_extract.
  destruct (read_file w path) as [data|e]; [|discriminate]. unfold bind at 1.
  destruct (extract_files w data) as [streams|e]; [|discriminate]. unfold bind at 1.
  pose proof (text_fragments_normalized u cd streams) as H.
  destruct (text_fragments u cd streams) as [|f fs]; [discriminate|].
  intros E.
  assert (t = join_blank (f :: fs)) as -> by (injection E; intros <-; reflexivity).
  split.
  - apply join_blank_nonempty. inversion H as [|? ? [Hne _] _]. exact Hne.
  - apply join_blank_Forall; [reflexivity|].
    eapply Forall_impl; [|exact H]. intros x (_ & _ & Hx). exact Hx.
Qed.

(** X10: in [extract_with_hwp_extract] only the body streams count and
    each stream is treated on its own: the fragments of a list of
    streams are those of its body streams, and the fragments of two
    lists put together are the fragments of the first followed by those
    of the second.  Each fragment is non-empty and a fixed point of
    [normalize_text].  A text the function returns is not empty; an
    error of reading the file or of the extractor leaves the function
    as it is. *)
Theorem extract_with_hwp_extract_streams (w : World) (u : UnicodeData) (cd : Codecs)
  (path : string) :
  (forall streams,
     text_fragments u cd (filter (is_body_stream u) streams) = text_fragments u cd streams)
  /\ (forall s1 s2,
        text_fragments u cd (s1 ++ s2) = text_fragments u cd s1 ++ text_fragments u cd s2)
  /\ (forall streams,
        Forall (fun f => f <> [] /\ normalize_text u f = f) (text_fragments u cd streams))
  /\ (forall t, extract_with_hwp_extract w u cd path = Ok t -> t <> [])
  /\ (forall e, read_file w path = Raise e -> extract_with_hwp_extract w u cd path = Raise e)
  /\ (forall data e, read_file w path = Ok data -> extract_files w data = Raise e ->
                     extract_with_hwp_extract w u cd path = Raise e).
Proof.
  split; [apply text_fragments_body_only|].
  split; [apply text_fragments_app|].
  split; [|split; [|split]].
  - intros streams. eapply Forall_impl; [|apply text_fragments_normalized].
    intros f (H1 & H2 & _). split; assumption.
  - intros t H. apply (extract_with_hwp_extract_text w u cd path t H).
  - intros e H. unfold extract_with_hwp_extract. rewrite H. reflexivity.
  - intros data e H1 H2. unfold extract_with_hwp_extract. rewrite H1. unfold bind at 1.
    rewrite H2. reflexivity.
Qed.

(** ** extract_text *)

Lemma fallback_label w :
  (if negb (HAS_PYHWP w)
      && match PYHWP_IMPORT_ERROR w with Some _ => true | None => false end
   then ("smart_decode" ++ " (pyhwp missing)")%string
   else "smart_decode"%string)
  = if HAS_PYHWP w then "smart_decode"%string
    else "smart_decode (pyhwp missing)"%string.
Proof.
  unfold HAS_PYHWP, PYHWP_IMPORT_ERROR. destruct (pyhwp_import w); reflexivity.
Qed.

Lemma fallback_outcome w u cd path pe :
  (exists t, fallback w u cd path pe
             = Ok (t, if HAS_PYHWP w then "smart_decode"%string
                      else "smart_decode (pyhwp missing)"%string)
             /\ extract_with_hwp_extract w u cd path = Ok t)
  \/ (exists err, fallback w u cd path pe
                  = Raise (ExnFrom RuntimeError (exn_str err ++ pyhwp_suffix pe)%string err)
                  /\ extract_with_hwp_extract w u cd path = Raise err).
Proof.
  unfold fallback. rewrite fallback_label.
  destruct (extract_with_hwp_extract w u cd path) as [t|err]; simpl; eauto.
Qed.

Lemma extract_text_cases (w : World) (u : UnicodeData) (cd : Codecs)
  (path : string) :
  (fst (extract_text w u cd path) = [Call_try_hwpx]
   /\ exists c t, snd (extract_text w u cd path) = Ok (c :: t, "hwpx"%string)
                  /\ try_hwpx w u cd path = Ok (Some (c :: t)))
  \/ (HAS_PYHWP w = true
      /\ fst (extract_text w u cd path) = [Call_try_hwpx; Call_pyhwp]
      /\ exists c t, snd (extract_text w u cd path) = Ok (c :: t, "pyhwp"%string)
                     /\ extract_with_pyhwp w u cd path = Ok (Some (c :: t), None))
  \/ (fst (extract_text w u cd path)
      = (if HAS_PYHWP w then [Call_try_hwpx; Call_pyhwp; Call_hwp_extract]
         else [Call_try_hwpx; Call_hwp_extract])
      /\ ((exists t, snd (extract_text w u cd path)
                     = Ok (t, if HAS_PYHWP w then "smart_decode"%string
                              else "smart_decode (pyhwp missing)"%string)
                     /\ extract_with_hwp_extract w u cd path = Ok t)
          \/ (exists e err, snd (extract_text w u cd path) = Raise e
                            /\ exn_cls e = RuntimeError /\ exn_cause e = Some err
                            /\ extract_with_hwp_extract w u cd path = Raise err))).
Proof.
  assert (Hfb : forall pe,
             (exists t, fallback w u cd path pe
                        = Ok (t, if HAS_PYHWP w then "smart_decode"%string
                                 else "smart_decode (pyhwp missing)"%string)
                        /\ extract_with_hwp_extract w u cd path = Ok t)
             \/ (exists e err, fallback w u cd path pe = Raise e
                               /\ exn_cls e = RuntimeError /\ exn_cause e = Some err
                               /\ extract_with_hwp_extract w u cd path = Raise err)).
  { intros pe. destruct (fallback_outcome w u cd path pe) as [H|(err & E1 & E2)];
      [left; exact H|right].
    eexists _, err. split; [exact E1|]. auto. }
  unfold extract_text.
  destruct (try_hwpx_returns w u cd path) as [r Hr]. rewrite Hr.
  destruct r as [[|c t]|].
  2: { left. simpl. eauto 10. }
  all: right; destruct (HAS_PYHWP w) eqn:Hhas;
    [destruct (extract_with_pyhwp_shape w u cd path Hhas) as [(c' & t' & E)|(e & E)];
     rewrite E;
     [left; simpl; eauto 10|right; simpl; split; [reflexivity|apply Hfb]]
    |right; simpl; split; [reflexivity|apply Hfb]].
Qed.

(** X11: the ways a call of [extract_text] can go.  It calls [try_hwpx]
    first and stops there with the label hwpx and a non-empty text; or,
    with the library present, goes on to [extract_with_pyhwp] and stops
    there with the label pyhwp and a non-empty text; or ends in
    [extract_with_hwp_extract], called after the strategies available,
    and returns its text, labelled smart_decode (with the note that
    pyhwp is missing exactly when it is), or raises a [RuntimeError]
    from its error. *)
Theorem extract_text_outcomes (w : World) (u : UnicodeData) (cd : Codecs)
  (path : string) :
  (fst (extract_text w u cd path) = [Call_try_hwpx]
   /\ exists c t, snd (extract_text w u cd path) = Ok (c :: t, "hwpx"%string)
                  /\ try_hwpx w u cd path = Ok (Some (c :: t)))
  \/ (HAS_PYHWP w = true
      /\ fst (extract_text w u cd path) = [Call_try_hwpx; Call_pyhwp]
      /\ exists c t, snd (extract_text w u cd path) = Ok (c :: t, "pyhwp"%string)
                     /\ extract_with_pyhwp w u cd path = Ok (Some (c :: t), None))
  \/ (fst (extract_text w u cd path)
      = (if HAS_PYHWP w then [Call_try_hwpx; Call_pyhwp; Call_hwp_extract]
         else [Call_try_hwpx; Call_hwp_extract])
      /\ ((exists t, snd (extract_text w u cd path)
                     = Ok (t, if HAS_PYHWP w then "smart_decode"%string
                              else "smart_decode (pyhwp missing)"%string)
                     /\ extract_with_hwp_extract w u cd path = Ok t)
          \/ (exists e err, snd (extract_text w u cd path) = Raise e
                            /\ exn_cls e = RuntimeError /\ exn_cause e = Some err
                            /\ extract_with_hwp_extract w u cd path = Raise err))).
Proof. exact (extract_text_cases w u cd path). Qed.

Lemma span_alphabet_range c : span_alphabet c = true -> 0x0A <= c <= 0xD7A3.
Proof. intros H. chars. Qed.

(** X12: a text [extract_text] returns is not empty, and each of its
    characters belongs to the alphabet of the span pattern, whichever
    strategy gave it; so it has no character from U+D800 on and no
    surrogate. *)
Theorem extract_text_success_text (w : World) (u : UnicodeData) (cd : Codecs)
  (path : string) (text : pystr) (label : string) :
  snd (extract_text w u cd path) = Ok (text, label) ->
  text <> []
  /\ Forall (fun c => span_alphabet c = true) text
  /\ Forall (fun c => 0x0A <= c <= 0xD7A3) text.
Proof.
  intros H.
  assert (G : text <> [] /\ Forall (fun c => span_alphabet c = true) text).
  { destruct (extract_text_cases w u cd path)
      as [(_ & c & t & E & Eh)|[(Hhas & _ & c & t & E & Ep)|(_ & [(t & E & Ef)|(e & err & E & _)])]];
      rewrite E in H; try discriminate; injection H as <- <-.
    - split; [discriminate|].
      rewrite <- (try_hwpx_text_fixed w u cd path _ Eh). apply normalized_alphabet.
    - split; [discriminate|].
      rewrite <- (extract_with_pyhwp_text_fixed w u cd path _ _ Ep).
      apply normalized_alphabet.
    - exact (extract_with_hwp_extract_text w u cd path t Ef). }
  destruct G as [G1 G2]. repeat split; try assumption.
  eapply Forall_impl; [|exact G2]. intros c. apply span_alphabet_range.
Qed.

Lemma extract_text_success_text_sample :
  annyeong <> []
  /\ Forall (fun c => span_alphabet c = true) annyeong
  /\ Forall (fun c => 0x0A <= c <= 0xD7A3) annyeong.
Proof.
  apply (extract_text_success_text hwpx_world sample_unicode sample_codecs "doc.hwpx"
           annyeong "hwpx"%string).
  reflexivity.
Defined.

(** X13: a readable file that is no zip container, with the structured
    library present and its text transform giving bytes that are not
    blank and whose text survives normalization: [extract_text] returns
    that normalized text with the label pyhwp, and does not call
    [extract_with_hwp_extract]. *)
Theorem extract_text_pyhwp_scenario (w : World) (u : UnicodeData) (cd : Codecs)
  (path : string) (data raw : pybytes) (text : pystr) :
  read_file w path = Ok data -> firstn 4 data <> zip_signature ->
  HAS_PYHWP w = true ->
  transform_hwp5_to_text w path = Ok raw -> bytes_blank raw = false ->
  cd UTF_8 Replace raw = Some text ->
  normalize_text u text <> [] ->
  extract_text w u cd path
  = ([Call_try_hwpx; Call_pyhwp], Ok (normalize_text u text, "pyhwp"%string)).
Proof.
  intros Hr Hs Hhas Ht Hb Hd Hn. unfold extract_text.
  rewrite (try_hwpx_not_zip w u cd path data Hr Hs), Hhas.
  unfold extract_with_pyhwp, extract_with_pyhwp_body. rewrite Hhas, Ht.
  simpl negb. cbv iota. unfold bind at 1. rewrite Hb.
  unfold decode_replace. rewrite Hd. unfold bind at 1.
  unfold after_normalization, try_except.
  destruct (normalize_text u text) as [|c t]; [contradiction|reflexivity].
Qed.

Lemma extract_text_pyhwp_scenario_sample :
  extract_text pyhwp_world sample_unicode sample_codecs "plain.hwp"
  = ([Call_try_hwpx; Call_pyhwp], Ok (annyeong, "pyhwp"%string)).
Proof.
  apply (extract_text_pyhwp_scenario pyhwp_world sample_unicode sample_codecs
           "plain.hwp" ole_header annyeong_utf8 (annyeong ++ [LF]));
    try reflexivity; discriminate.
Defined.

(** X14: when the first two strategies give no text and the raw-stream
    extractor yields streams with at least one fragment,
    [extract_text] returns the fragments joined by blank lines; the
    label is smart_decode, with the note that pyhwp is missing exactly
    when the library is not installed. *)
Theorem extract_text_raw_stream_scenario (w : World) (u : UnicodeData) (cd : Codecs)
  (path : string) (data : pybytes) (streams : list stream) :
  (forall c t, try_hwpx w u cd path <> Ok (Some (c :: t))) ->
  (forall c t e, extract_with_pyhwp w u cd path <> Ok (Some (c :: t), e)) ->
  read_file w path = Ok data ->
  extract_files w data = Ok streams ->
  text_fragments u cd streams <> [] ->
  extract_text w u cd path
  = (if HAS_PYHWP w then [Call_try_hwpx; Call_pyhwp; Call_hwp_extract]
     else [Call_try_hwpx; Call_hwp_extract],
     Ok (join_blank (text_fragments u cd streams),
         if HAS_PYHWP w then "smart_decode"%string
         else "smart_decode (pyhwp missing)"%string)).
Proof.
  intros H1 H2 Hr Hx Hf.
  destruct (extract_text_falls_through w u cd path H1 H2) as (pe & E & _).
  rewrite E. f_equal. unfold fallback. rewrite fallback_label.
  unfold extract_with_hwp_extract. rewrite Hr. unfold bind at 2. rewrite Hx.
  unfold bind at 2.
  destruct (text_fragments u cd streams) as [|f fs]; [contradiction|reflexivity].
Qed.

Lemma extract_text_raw_stream_scenario_sample :
  extract_text raw_world sample_unicode sample_codecs "raw.hwp"
  = ([Call_try_hwpx; Call_hwp_extract],
     Ok (ga_na, "smart_decode (pyhwp missing)"%string)).
Proof.
  apply (extract_text_raw_stream_scenario raw_world sample_unicode sample_codecs
           "raw.hwp" ole_header
           [ {| stream_name := str_of "FileHeader"; stream_data := [0x48; 0x57; 0x50] |};
             {| stream_name := str_of "BodyText/Section0";
                stream_data := ga_na_utf16le |} ]);
    try reflexivity.
  - intros c t. vm_compute. discriminate.
  - intros c t e. vm_compute. discriminate.
  - vm_compute. discriminate.
Defined.

(** * main *)

Lemma utf8_encode_char_total c :
  0x0A <= c <= 0xD7A3 -> exists b, utf8_encode_char c = Some b.
Proof.
  intros H. unfold utf8_encode_char.
  destruct (c <? 128); [eauto|]. destruct (c <? 2048); [eauto|].
  replace (in_range 55296 57343 c) with false; [destruct (c <? 65536); eauto|].
  symmetry. apply not_true_iff_false. rewrite in_range_iff. lia.
Qed.

Lemma utf8_encode_total s :
  Forall (fun c => 0x0A <= c <= 0xD7A3) s -> exists data, utf8_encode s = Some data.
Proof.
  induction 1 as [|c s Hc _ [bs IH]]; [exists []; reflexivity|].
  destruct (utf8_encode_char_total c Hc) as [b Hb].
  cbn [utf8_encode]. rewrite Hb, IH. eauto.
Qed.

Lemma extract_text_text_range w u cd path text label :
  snd (extract_text w u cd path) = Ok (text, label) ->
  Forall (fun c => 0x0A <= c <= 0xD7A3) text.
Proof.
  intros H.
  assert (G : Forall (fun c => span_alphabet c = true) text).
  { destruct (extract_text_cases w u cd path)
      as [(_ & c & t & E & Eh)|[(Hhas & _ & c & t & E & Ep)|(_ & [(t & E & Ef)|(e & err & E & _)])]];
      rewrite E in H; try discriminate; injection H as <- <-.
    - rewrite <- (try_hwpx_text_fixed w u cd path _ Eh). apply normalized_alphabet.
    - rewrite <- (extract_with_pyhwp_text_fixed w u cd path _ _ Ep).
      apply normalized_alphabet.
    - exact (proj2 (extract_with_hwp_extract_text w u cd path t Ef)). }
  eapply Forall_impl; [|exact G]. intros c. apply span_alphabet_range.
Qed.

Lemma main_failure_shape diagnostics err :
  exn_cls err = RuntimeError \/ exn_cls err = OtherException ->
  main_failure diagnostics err
  = {| stdout := []; stderr := diagnostics ++ [(exn_str err ++ newline)%string];
       exit_status := Some 1; handled_by := Some Handle_exception |}.
Proof.
  intros [H|H]; unfold main_failure, handler_of; rewrite H; reflexivity.
Qed.

(** X15: a run of [main].  It ends by returning or with exit status 1.
    It returns exactly when there is an argument and [extract_text]
    succeeds on the first one; it then wrote the UTF-8 bytes of the
    text, once, to standard output and one line naming the strategy to
    standard error; encoding the text cannot fail.  With status 1
    nothing was written to standard output, and standard error holds
    the usage line or the message of the error.  The clauses for
    [HWPExtractorNoPasswordError] and [HWPExtractorError] are never
    the ones taken. *)
Theorem main_outcomes (w : World) (u : UnicodeData) (cd : Codecs) (args : list string) :
  (exit_status (main w u cd args) = None \/ exit_status (main w u cd args) = Some 1)
  /\ (exit_status (main w u cd args) = Some 1 -> stdout (main w u cd args) = [])
  /\ (exit_status (main w u cd args) = None
      <-> exists path rest text label,
            args = path :: rest
            /\ snd (extract_text w u cd path) = Ok (text, label))
  /\ (forall path rest text label,
        args = path :: rest ->
        snd (extract_text w u cd path) = Ok (text, label) ->
        exists data,
          utf8_encode text = Some data
          /\ stdout (main w u cd args) = [data]
          /\ stderr (main w u cd args)
             = [("Decoded using " ++ label ++ " path." ++ newline)%string])
  /\ (forall path rest err,
        args = path :: rest ->
        snd (extract_text w u cd path) = Raise err ->
        stderr (main w u cd args) = [(exn_str err ++ newline)%string]
        /\ exit_status (main w u cd args) = Some 1)
  /\ (args = [] ->
      stderr (main w u cd args)
      = [("Usage: hwp_extractor.py <path-to-hwp>" ++ newline)%string]
      /\ exit_status (main w u cd args) = Some 1)
  /\ (handled_by (main w u cd args) = None
      \/ handled_by (main w u cd args) = Some Handle_exception).
Proof.
  destruct args as [|path rest].
  - simpl. split; [auto|]. split; [auto|]. split.
    { split; [discriminate|]. intros (p & r & t & l & C & _). discriminate. }
    split; [intros p r t l C; discriminate|].
    split; [intros p r e C; discriminate|]. auto.
  - unfold main.
    destruct (snd (extract_text w u cd path)) as [[text label]|err] eqn:E.
    + destruct (utf8_encode_total text (extract_text_text_range w u cd path text label E))
        as [data Hd].
      rewrite Hd. simpl. split; [auto|]. split; [discriminate|]. split.
      { split; [|reflexivity]. intros _. exists path, rest, text, label. auto. }
      split.
      { intros p r t l C Hx. injection C as <- <-. rewrite E in Hx.
        injection Hx as <- <-. exists data. auto. }
      split.
      { intros p r e C Hx. injection C as <- <-. rewrite E in Hx. discriminate. }
      split; [discriminate|auto].
    + rewrite (main_failure_shape [] err)
        by (left; exact (proj1 (extract_text_error_class w u cd path err E))).
      simpl. split; [auto|]. split; [reflexivity|]. split.
      { split; [discriminate|].
        intros (p & r & t & l & C & Hx). injection C as <- <-.
        rewrite E in Hx. discriminate. }
      split.
      { intros p r t l C Hx. injection C as <- <-. rewrite E in Hx. discriminate. }
      split.
      { intros p r e C Hx. injection C as <- <-. rewrite E in Hx.
        injection Hx as <-. auto. }
      split; [discriminate|auto].
Qed.

(** * Further properties of smart_decode *)

Lemma scan_result_such (P : pystr -> Prop) score decode cands :
  (forall c t, In c cands -> decode c = Some t -> P t) ->
  forall st, P (best_txt st) ->
  match scan score decode cands st with
  | Returned txt _ => P txt
  | Exhausted st' => P (best_txt st')
  end.
Proof.
  induction cands as [|cand rest IH]; intros Hdec st Hst; [exact Hst|].
  cbn [scan]. destruct (decode cand) as [txt|] eqn:E.
  - cbv zeta. destruct (Qltb float_1_2 (score txt)).
    + apply (Hdec cand txt); [left; reflexivity|exact E].
    + apply IH; [intros c t Hc; apply Hdec; right; exact Hc|].
      destruct (Qltb (best_score st) (score txt)); [|exact Hst].
      apply (Hdec cand txt); [left; reflexivity|exact E].
  - apply IH; [intros c t Hc; apply Hdec; right; exact Hc|exact Hst].
Qed.

(** X16: what [smart_decode] returns is the empty string or the text
    one of its candidate codecs gives for the buffer or, for a buffer
    of at least four bytes flagged by the zero-byte test, the text a
    lenient legacy codec gives for every other byte of it. *)
Theorem smart_decode_is_a_decoding (u : UnicodeData) (cd : Codecs) (raw : pybytes) :
  smart_decode u cd raw = []
  \/ (exists c, In c (candidates raw)
                /\ cd (fst c) (snd c) raw = Some (smart_decode u cd raw))
  \/ (looks_utf16 raw = true /\ 4 <= Z.of_nat (length raw)
      /\ exists c, In c legacy_candidates
                   /\ cd (fst c) (snd c) (every_other raw) = Some (smart_decode u cd raw)).
Proof.
  set (P1 := fun t : pystr =>
               t = [] \/ exists c, In c (candidates raw) /\ cd (fst c) (snd c) raw = Some t).
  set (P2 := fun t : pystr =>
               P1 t \/ exists c, In c legacy_candidates
                                 /\ cd (fst c) (snd c) (every_other raw) = Some t).
  assert (G : P1 (smart_decode u cd raw)
              \/ (looks_utf16 raw = true /\ 4 <= Z.of_nat (length raw)
                  /\ P2 (smart_decode u cd raw))).
  { unfold smart_decode, smart_decode_trace, smart_decode_with.
    match goal with
    | |- context [scan ?s ?d (candidates raw) ?st] =>
        pose proof (scan_result_such P1 s d (candidates raw)) as H1;
        specialize (H1 (fun c t Hc E => or_intror (ex_intro _ c (conj Hc E))) st
                       (or_introl eq_refl));
        destruct (scan s d (candidates raw) st) as [txt tried|st1]
    end; [left; exact H1|].
    destruct (looks_utf16 raw) eqn:Hw; [|left; exact H1].
    destruct (Qltb (best_score st1) float_0_9); [|left; exact H1].
    destruct (4 <=? Z.of_nat (length raw)) eqn:Hl; [|left; exact H1].
    apply Z.leb_le in Hl. right. split; [reflexivity|]. split; [exact Hl|].
    cbn [andb].
    match goal with
    | |- context [scan ?s ?d legacy_candidates st1] =>
        pose proof (scan_result_such P2 s d legacy_candidates) as H2;
        specialize (H2 (fun c t Hc E => or_intror (ex_intro _ c (conj Hc E))) st1
                       (or_introl H1));
        destruct (scan s d legacy_candidates st1) as [txt tried|st2]
    end; exact H2. }
  destruct G as [[G|G]|(Hw & Hl & [[G|G]|G])]; auto.
Qed.

Lemma scan_ext score d d' cands :
  (forall c, In c cands -> d c = d' c) ->
  forall st, scan score d cands st = scan score d' cands st.
Proof.
  induction cands as [|cand rest IH]; intros H st; [reflexivity|].
  cbn [scan]. rewrite <- (H cand (or_introl eq_refl)).
  assert (Hrest : forall c, In c rest -> d c = d' c) by (intros c Hc; apply H; right; exact Hc).
  destruct (d cand) as [txt|]; [|apply IH; exact Hrest].
  cbv zeta. destruct (Qltb float_1_2 (score txt)); [reflexivity|].
  apply IH. exact Hrest.
Qed.

Lemma count_none (p : Z -> bool) s : Forall (fun c => p c = false) s -> count p s = 0.
Proof.
  unfold count. induction 1 as [|c s Hc _ IH]; simpl; [reflexivity|].
  rewrite Hc. exact IH.
Qed.

Lemma Forall_firstn_keep (P : Z -> Prop) n : forall s, Forall P s -> Forall P (firstn n s).
Proof.
  induction n as [|n IH]; intros s H; [constructor|].
  destruct H as [|c s Hc Hs]; simpl; constructor; auto.
Qed.

Lemma looks_utf16_no_zero raw : Forall (fun b => b <> 0) raw -> looks_utf16 raw = false.
Proof.
  intros H. unfold looks_utf16. cbv zeta.
  rewrite count_none.
  - apply Z.ltb_ge. lia.
  - apply Forall_firstn_keep. eapply Forall_impl; [|exact H].
    intros b Hb. apply Z.eqb_neq. intros C. apply Hb. symmetry. exact C.
Qed.

(** X17: a buffer with no zero byte is not flagged by the zero-byte
    test; for a buffer that is not flagged, the UTF-16 codecs are not
    consulted and no byte is dropped: the result and the texts tried
    are decided by what the three lenient legacy codecs give for the
    buffer. *)
Theorem smart_decode_not_flagged (u : UnicodeData) (cd cd' : Codecs) (raw : pybytes) :
  (Forall (fun b => b <> 0) raw -> looks_utf16 raw = false)
  /\ (looks_utf16 raw = false ->
      (forall enc, In enc [CP949; EUC_KR; UTF_8] ->
                   cd enc Replace raw = cd' enc Replace raw) ->
      smart_decode_trace u cd raw = smart_decode_trace u cd' raw
      /\ smart_decode u cd raw = smart_decode u cd' raw).
Proof.
  split; [apply looks_utf16_no_zero|].
  intros Hw Hsame.
  assert (E : smart_decode_trace u cd raw = smart_decode_trace u cd' raw).
  { unfold smart_decode_trace, smart_decode_with, candidates. rewrite Hw.
    cbn [app andb].
    rewrite (scan_ext (score_text u) (fun c => cd (fst c) (snd c) raw)
               (fun c => cd' (fst c) (snd c) raw) legacy_candidates).
    - reflexivity.
    - intros c [<-|[<-|[<-|[]]]]; apply Hsame; simpl; auto. }
  split; [exact E|]. unfold smart_decode. rewrite E. reflexivity.
Qed.

Lemma smart_decode_not_flagged_sample :
  looks_utf16 han_utf16le = false
  /\ smart_decode sample_unicode sample_codecs han_utf16le
     = smart_decode sample_unicode legacy_only_codecs han_utf16le.
Proof.
  destruct (smart_decode_not_flagged sample_unicode sample_codecs legacy_only_codecs
              han_utf16le) as [H1 H2].
  assert (Hz : Forall (fun b => b <> 0) han_utf16le)
    by (repeat constructor; discriminate).
  split; [exact (H1 Hz)|].
  apply (H2 (H1 Hz)). intros enc [<-|[<-|[<-|[]]]]; reflexivity.
Defined.


(** * Markup-wrapped text in a container *)

(** ** Spaces around a text *)

Lemma collapse_newlines_from_free p :
  Forall (fun c => c <> LF) p -> forall k, collapse_newlines_from k p = p.
Proof.
  induction 1 as [|c p Hc _ IH]; intros k; [reflexivity|].
  cbn [collapse_newlines_from]. apply Z.eqb_neq in Hc. rewrite Hc, IH. reflexivity.
Qed.

Lemma collapse_newlines_from_suffix post x :
  Forall (fun c => c <> LF) post ->
  forall k, collapse_newlines_from k (x ++ post) = collapse_newlines_from k x ++ post.
Proof.
  intros Hp. induction x as [|c x IH]; intros k.
  - apply collapse_newlines_from_free. assumption.
  - cbn [app collapse_newlines_from]. destruct (c =? LF).
    + destruct k as [|[|k]]; rewrite IH; reflexivity.
    + rewrite IH. reflexivity.
Qed.

Lemma replace_crlf_prefix pre t :
  Forall (fun c => c <> CR) pre -> replace_crlf (pre ++ t) = pre ++ replace_crlf t.
Proof.
  induction 1 as [|c pre Hc _ IH]; [reflexivity|].
  cbn [app]. rewrite replace_crlf_other by assumption. rewrite IH. reflexivity.
Qed.

Lemma replace_crlf_suffix post :
  Forall (fun c => c <> CR /\ c <> LF) post ->
  forall t, replace_crlf (t ++ post) = replace_crlf t ++ post.
Proof.
  intros Hp.
  assert (Hid : replace_crlf post = post).
  { apply replace_crlf_id. eapply Forall_impl; [|exact Hp]. intros c [H _]. exact H. }
  assert (H : forall n t, (length t <= n)%nat ->
                          replace_crlf (t ++ post) = replace_crlf t ++ post).
  { induction n as [|n IH]; intros t Hn.
    - destruct t; [exact Hid|simpl in Hn; lia].
    - destruct t as [|c [|d t]].
      + exact Hid.
      + destruct post as [|e post]; [reflexivity|].
        inversion Hp as [|? ? [_ He] _]; subst. apply Z.eqb_neq in He.
        change (replace_crlf ([c] ++ e :: post))
          with (if (c =? CR) && (e =? LF) then LF :: replace_crlf post
                else c :: replace_crlf (e :: post)).
        rewrite He, andb_false_r, Hid. reflexivity.
      + change (replace_crlf ((c :: d :: t) ++ post))
          with (if (c =? CR) && (d =? LF) then LF :: replace_crlf (t ++ post)
                else c :: replace_crlf ((d :: t) ++ post)).
        change (replace_crlf (c :: d :: t))
          with (if (c =? CR) && (d =? LF) then LF :: replace_crlf t
                else c :: replace_crlf (d :: t)).
        simpl length in Hn.
        rewrite (IH t) by lia. rewrite (IH (d :: t)) by (simpl; lia).
        destruct ((c =? CR) && (d =? LF)); reflexivity. }
  intros t. apply (H (length t)). lia.
Qed.

Lemma spaces_plain s :
  Forall (fun c => c = SP) s ->
  Forall (fun c => c <> CR /\ c <> LF) s
  /\ Forall (fun c => negb (c =? 0) = true) s
  /\ Forall (fun c => negb (is_control c) = true) s
  /\ Forall (fun c => isspace c = true) s.
Proof.
  intros H. repeat split; (eapply Forall_impl; [|exact H]); intros c ->;
    try reflexivity; try discriminate.
  split; discriminate.
Qed.

Lemma clean_padded pre t post :
  Forall (fun c => c = SP) pre -> Forall (fun c => c = SP) post ->
  clean (pre ++ t ++ post) = pre ++ clean t ++ post.
Proof.
  intros Hpre Hpost.
  destruct (spaces_plain pre Hpre) as (A1 & A2 & A3 & _).
  destruct (spaces_plain post Hpost) as (B1 & B2 & B3 & _).
  assert (A1' : Forall (fun c => c <> CR) pre)
    by (eapply Forall_impl; [|exact A1]; intros c [H _]; exact H).
  assert (A1'' : Forall (fun c => c <> LF) pre)
    by (eapply Forall_impl; [|exact A1]; intros c [_ H]; exact H).
  assert (B1' : Forall (fun c => c <> CR) post)
    by (eapply Forall_impl; [|exact B1]; intros c [H _]; exact H).
  assert (B1'' : Forall (fun c => c <> LF) post)
    by (eapply Forall_impl; [|exact B1]; intros c [_ H]; exact H).
  unfold clean, collapse_newlines, remove_control, remove_nul.
  rewrite replace_crlf_prefix, replace_crlf_suffix by assumption.
  unfold replace_cr at 1. rewrite !map_app.
  fold (replace_cr pre). fold (replace_cr post). fold (replace_cr (replace_crlf t)).
  rewrite (replace_cr_id pre), (replace_cr_id post) by assumption.
  rewrite !filter_app.
  rewrite (filter_all _ pre A2), (filter_all _ post B2).
  rewrite (filter_all _ pre A3), (filter_all _ post B3).
  rewrite collapse_newlines_from_line by assumption.
  rewrite collapse_newlines_from_suffix by assumption. reflexivity.
Qed.

Lemma split_lines_prefix pre s :
  Forall (fun c => c <> LF) pre ->
  split_lines (pre ++ s) =
  match split_lines s with
  | l :: ls => (pre ++ l) :: ls
  | [] => []
  end.
Proof.
  pose proof (split_lines_nonempty s) as N.
  induction 1 as [|c pre Hc _ IH].
  - cbn [app]. destruct (split_lines s); reflexivity.
  - cbn [app split_lines]. apply Z.eqb_neq in Hc. rewrite Hc, IH.
    destruct (split_lines s); [contradiction|reflexivity].
Qed.

Lemma split_lines_suffix post s :
  Forall (fun c => c <> LF) post ->
  Forall2 (fun a b => a = b \/ a = b ++ post) (split_lines (s ++ post)) (split_lines s).
Proof.
  intros Hp. induction s as [|c s IH].
  - cbn [app split_lines]. rewrite split_lines_line by assumption.
    constructor; [right; reflexivity|constructor].
  - cbn [app split_lines]. destruct (c =? LF).
    + constructor; [left; reflexivity|exact IH].
    + pose proof (split_lines_nonempty s) as N1.
      pose proof (split_lines_nonempty (s ++ post)) as N2.
      destruct (split_lines s) as [|l ls]; [contradiction|].
      destruct (split_lines (s ++ post)) as [|l' ls']; [contradiction|].
      inversion IH as [|? ? ? ? [E|E] T]; subst; constructor; auto.
Qed.

(** What [best_span] sees of a line. *)
Lemma best_span_filtered u l1 l2 :
  strip (collapse_ws (filter (is_allowed_char u) l1))
  = strip (collapse_ws (filter (is_allowed_char u) l2)) ->
  sanitize_line u l1 = sanitize_line u l2.
Proof. intros H. unfold sanitize_line, best_span. rewrite H. reflexivity. Qed.

Lemma lstrip_collapse_mode g :
  lstrip (collapse_ws_from true g) = lstrip (collapse_ws_from false g).
Proof.
  destruct g as [|c t]; [reflexivity|]. cbn [collapse_ws_from].
  destruct (isspace c); [|reflexivity]. cbn [lstrip]. rewrite isspace_SP. reflexivity.
Qed.

Lemma collapse_ws_from_spaces pre g :
  Forall (fun c => c = SP) pre ->
  collapse_ws_from true (pre ++ g) = collapse_ws_from true g.
Proof.
  induction 1 as [|c pre -> _ IH]; [reflexivity|].
  cbn [app collapse_ws_from]. rewrite isspace_SP. exact IH.
Qed.

Lemma lstrip_collapse_padded pre g :
  Forall (fun c => c = SP) pre ->
  lstrip (collapse_ws_from false (pre ++ g)) = lstrip (collapse_ws_from false g).
Proof.
  intros H. destruct H as [|c pre -> H]; [reflexivity|].
  cbn [app collapse_ws_from]. rewrite isspace_SP. cbn [lstrip]. rewrite isspace_SP.
  rewrite collapse_ws_from_spaces by assumption. apply lstrip_collapse_mode.
Qed.

Lemma rstrip_blank ws : Forall (fun c => isspace c = true) ws -> rstrip ws = [].
Proof.
  induction 1 as [|c ws Hc _ IH]; [reflexivity|].
  rewrite rstrip_cons, IH, Hc. reflexivity.
Qed.

Lemma rstrip_padded ws x :
  Forall (fun c => isspace c = true) ws -> rstrip (x ++ ws) = rstrip x.
Proof.
  intros H. induction x as [|c x IH]; [apply rstrip_blank; assumption|].
  cbn [app]. rewrite !rstrip_cons, IH. reflexivity.
Qed.

Lemma lstrip_blank ws : Forall (fun c => isspace c = true) ws -> lstrip ws = [].
Proof.
  induction 1 as [|c ws Hc _ IH]; [reflexivity|]. cbn [lstrip]. rewrite Hc. exact IH.
Qed.

Lemma strip_padded ws x :
  Forall (fun c => isspace c = true) ws -> strip (x ++ ws) = strip x.
Proof.
  intros H. unfold strip. induction x as [|c x IH].
  - cbn [app]. rewrite lstrip_blank by assumption. reflexivity.
  - cbn [app lstrip]. destruct (isspace c); [exact IH|].
    apply (rstrip_padded ws (c :: x) H).
Qed.

Lemma collapse_ws_from_blank ws :
  Forall (fun c => isspace c = true) ws ->
  forall b, Forall (fun c => isspace c = true) (collapse_ws_from b ws).
Proof.
  induction 1 as [|c ws Hc _ IH]; intros b; [constructor|].
  cbn [collapse_ws_from]. rewrite Hc. destruct b; [apply IH|].
  constructor; [apply isspace_SP|apply IH].
Qed.

Lemma collapse_ws_from_suffix ws g :
  Forall (fun c => isspace c = true) ws ->
  forall b, exists tail,
    Forall (fun c => isspace c = true) tail
    /\ collapse_ws_from b (g ++ ws) = collapse_ws_from b g ++ tail.
Proof.
  intros H. induction g as [|c g IH]; intros b.
  - exists (collapse_ws_from b ws). split; [apply collapse_ws_from_blank; assumption|].
    reflexivity.
  - cbn [app collapse_ws_from]. destruct (isspace c).
    + destruct b.
      * apply IH.
      * destruct (IH true) as (tail & Ht & E). exists tail. rewrite E. auto.
    + destruct (IH false) as (tail & Ht & E). exists tail. rewrite E. auto.
Qed.

Lemma sanitize_line_padded u pre l post :
  Forall (fun c => c = SP) pre -> Forall (fun c => c = SP) post ->
  sanitize_line u (pre ++ l) = sanitize_line u l
  /\ sanitize_line u (l ++ post) = sanitize_line u l.
Proof.
  intros Hpre Hpost.
  assert (Allowed : forall s, Forall (fun c => c = SP) s ->
                              filter (is_allowed_char u) s = s).
  { intros s Hs. apply filter_all. eapply Forall_impl; [|exact Hs].
    intros c ->. reflexivity. }
  split; apply best_span_filtered; rewrite filter_app.
  - rewrite (Allowed pre Hpre). unfold strip, collapse_ws.
    rewrite lstrip_collapse_padded by assumption. reflexivity.
  - rewrite (Allowed post Hpost). unfold collapse_ws.
    destruct (collapse_ws_from_suffix post (filter (is_allowed_char u) l)
                (proj2 (proj2 (proj2 (spaces_plain post Hpost)))) false)
      as (tail & Ht & ->).
    apply strip_padded. assumption.
Qed.

Lemma sanitized_lines_related u ls1 ls2 :
  Forall2 (fun a b => sanitize_line u a = sanitize_line u b) ls1 ls2 ->
  sanitized_lines u ls1 = sanitized_lines u ls2.
Proof.
  induction 1 as [|a b ls1 ls2 E _ IH]; [reflexivity|].
  cbn [sanitized_lines]. rewrite E, IH. reflexivity.
Qed.

(** Spaces before and after a text do not change what [normalize_text]
    gives for it. *)
Lemma normalize_text_padded u pre t post :
  Forall (fun c => c = SP) pre -> Forall (fun c => c = SP) post ->
  normalize_text u (pre ++ t ++ post) = normalize_text u t.
Proof.
  intros Hpre Hpost. unfold normalize_text.
  rewrite clean_padded by assumption.
  assert (Hfree : forall s, Forall (fun c => c = SP) s -> Forall (fun c => c <> LF) s).
  { intros s Hs. eapply Forall_impl; [|exact Hs]. intros c ->. discriminate. }
  rewrite split_lines_prefix by (apply Hfree; assumption).
  pose proof (split_lines_suffix post (clean t) (Hfree post Hpost)) as Hsuf.
  pose proof (split_lines_nonempty (clean t ++ post)) as N.
  destruct (split_lines (clean t ++ post)) as [|l' ls']; [contradiction|].
  f_equal. transitivity (sanitized_lines u (l' :: ls')).
  - cbn [sanitized_lines].
    rewrite (proj1 (sanitize_line_padded u pre l' [] Hpre (Forall_nil _))).
    reflexivity.
  - apply sanitized_lines_related. eapply Forall2_impl; [|exact Hsuf].
    intros a b [->| ->]; [reflexivity|].
    apply (proj2 (sanitize_line_padded u [] b post (Forall_nil _) Hpost)).
Qed.

(** ** Tags *)

Lemma strip_tags_in_tag body rest :
  Forall (fun c => c <> GT) body ->
  strip_tags_from true (body ++ GT :: rest) = strip_tags_from false rest.
Proof.
  induction 1 as [|c body Hc _ IH]; cbn [app strip_tags_from].
  - rewrite Z.eqb_refl. reflexivity.
  - apply Z.eqb_neq in Hc. rewrite Hc. exact IH.
Qed.

Lemma strip_tags_tag body rest :
  tag_body body ->
  strip_tags_from false (tag body ++ rest) = SP :: strip_tags_from false rest.
Proof.
  intros [Hne Hall]. unfold tag. cbn [app strip_tags_from].
  rewrite <- app_assoc. cbn [app].
  assert (Hc : tag_closes (body ++ GT :: rest) = true).
  { destruct body as [|b body]; [contradiction|].
    inversion Hall as [|? ? Hb _]; subst. apply Z.eqb_neq in Hb.
    unfold tag_closes. cbn [app]. rewrite Hb. cbn [negb andb].
    apply existsb_exists. exists GT. split; [|apply Z.eqb_refl].
    right. apply in_or_app. right. left. reflexivity. }
  rewrite Hc, Z.eqb_refl. cbn [andb]. rewrite strip_tags_in_tag by assumption.
  reflexivity.
Qed.

Lemma strip_tags_tags bodies rest :
  Forall tag_body bodies ->
  strip_tags_from false (concat (map tag bodies) ++ rest)
  = repeat SP (length bodies) ++ strip_tags_from false rest.
Proof.
  induction 1 as [|body bodies Hb _ IH]; [reflexivity|].
  cbn [map concat length repeat app]. rewrite <- app_assoc.
  rewrite strip_tags_tag by assumption. rewrite IH. reflexivity.
Qed.

Lemma strip_tags_text text rest :
  existsb (Z.eqb LT) text = false ->
  strip_tags_from false (text ++ rest) = text ++ strip_tags_from false rest.
Proof.
  induction text as [|c text IH]; intros H; [reflexivity|].
  cbn [existsb] in H. apply orb_false_iff in H as [H1 H2].
  cbn [app strip_tags_from]. rewrite Z.eqb_sym in H1. rewrite H1. cbn [andb].
  rewrite IH by assumption. reflexivity.
Qed.

Lemma strip_tags_wrapped opening text closing :
  Forall tag_body opening -> Forall tag_body closing ->
  existsb (Z.eqb LT) text = false ->
  strip_tags (concat (map tag opening) ++ text ++ concat (map tag closing))
  = repeat SP (length opening) ++ text ++ repeat SP (length closing).
Proof.
  intros Ho Hc Ht. unfold strip_tags.
  rewrite strip_tags_tags by assumption. rewrite strip_tags_text by assumption.
  rewrite <- (app_nil_r (concat (map tag closing))).
  rewrite strip_tags_tags by assumption. cbn [strip_tags_from].
  rewrite app_nil_r. reflexivity.
Qed.

Lemma repeat_spaces n : Forall (fun c => c = SP) (repeat SP n).
Proof. induction n; simpl; constructor; auto. Qed.

(** ** The first strategy on a container *)

(** C6 (counterexample): a file with the zip signature whose container
    holds Contents/Section0.xml with a paragraph element around five
    Hangul syllables, text that survives normalization, and a second
    section entry whose data cannot be read: [try_hwpx] gives up the
    whole container, and [extract_text] goes on to call both other
    strategies and raises. *)
Lemma extract_text_damaged_section :
  read_file damaged_world "damaged.hwpx" = Ok (zip_signature ++ [0x14; 0x00; 0x00; 0x00])
  /\ In (str_of "Contents/Section0.xml") (namelist damaged_archive)
  /\ read_entry damaged_archive (str_of "Contents/Section0.xml") = Ok section0_xml
  /\ sample_codecs UTF_8 Strict section0_xml
     = Some (tag [0x70] ++ annyeong ++ tag [0x2F; 0x70])
  /\ normalize_text sample_unicode annyeong = annyeong
  /\ try_hwpx damaged_world sample_unicode sample_codecs "damaged.hwpx" = Ok None
  /\ fst (extract_text damaged_world sample_unicode sample_codecs "damaged.hwpx")
     = [Call_try_hwpx; Call_pyhwp; Call_hwp_extract]
  /\ exists e,
       snd (extract_text damaged_world sample_unicode sample_codecs "damaged.hwpx")
       = Raise e.
Proof.
  split; [reflexivity|]. split; [right; left; reflexivity|].
  split; [reflexivity|]. split; [vm_compute; reflexivity|].
  split; [vm_compute; reflexivity|]. split; [vm_compute; reflexivity|].
  split; [vm_compute; reflexivity|]. eexists. vm_compute. reflexivity.
Qed.

(** C6 (amended): for a file that starts with the zip signature and
    opens as a container, (1) when every section entry can be read and
    decoded and the joined texts give a non-empty text after
    normalization, [extract_text] returns that text with the label hwpx
    and [try_hwpx] is the only strategy it calls; (2) when the only
    section entry holds, in UTF-8, a text without [<] wrapped in tags
    and the text survives normalization, the text returned is the
    normalized text itself, the tags gone. *)
Theorem extract_text_hwpx_first (w : World) (u : UnicodeData) (cd : Codecs)
  (path : string) (data : pybytes) (a : archive) :
  read_file w path = Ok data ->
  firstn 4 data = zip_signature ->
  ZipFile w path = Ok a ->
  (forall texts,
     section_entries u a <> [] ->
     mapM (read_section cd a) (sorted (section_entries u a)) = Ok texts ->
     normalize_text u (join_lines texts) <> [] ->
     extract_text w u cd path
     = ([Call_try_hwpx], Ok (normalize_text u (join_lines texts), "hwpx"%string)))
  /\ (forall name xml_bytes opening text closing,
        section_entries u a = [name] ->
        read_entry a name = Ok xml_bytes ->
        cd UTF_8 Strict xml_bytes
        = Some (concat (map tag opening) ++ text ++ concat (map tag closing)) ->
        Forall tag_body opening -> Forall tag_body closing ->
        existsb (Z.eqb LT) text = false ->
        normalize_text u text <> [] ->
        extract_text w u cd path
        = ([Call_try_hwpx], Ok (normalize_text u text, "hwpx"%string))).
Proof.
  intros Hr Hs Hz.
  assert (General : forall texts,
     section_entries u a <> [] ->
     mapM (read_section cd a) (sorted (section_entries u a)) = Ok texts ->
     normalize_text u (join_lines texts) <> [] ->
     extract_text w u cd path
     = ([Call_try_hwpx], Ok (normalize_text u (join_lines texts), "hwpx"%string))).
  { intros texts Hne Hm Hn. unfold extract_text, try_hwpx.
    rewrite (try_hwpx_body_zip w u cd path data a) by assumption.
    destruct (section_entries u a) as [|n ns] eqn:E; [contradiction|].
    rewrite Hm. simpl.
    destruct (normalize_text u (join_lines texts)); [contradiction|reflexivity]. }
  split; [exact General|].
  intros name xml_bytes opening text closing Hse Hre Hdec Ho Hc Ht Hn.
  pose proof (normalize_text_padded u (repeat SP (length opening)) text
                (repeat SP (length closing)) (repeat_spaces _) (repeat_spaces _)) as Hpad.
  rewrite <- (strip_tags_wrapped opening text closing Ho Hc Ht) in Hpad.
  rewrite <- Hpad in Hn |- *.
  apply (General [strip_tags (concat (map tag opening) ++ text ++ concat (map tag closing))]).
  - rewrite Hse. discriminate.
  - rewrite Hse. cbn [sorted fold_right insert_sorted mapM].
    unfold read_section, decode_xml. rewrite Hre. cbn [bind]. rewrite Hdec. reflexivity.
  - exact Hn.
Qed.

Lemma extract_text_hwpx_first_sample :
  extract_text hwpx_world sample_unicode sample_codecs "doc.hwpx"
  = ([Call_try_hwpx], Ok (annyeong, "hwpx"%string))
  /\ extract_text hwpx_world sample_unicode sample_codecs "doc.hwpx"
     = ([Call_try_hwpx], Ok (normalize_text sample_unicode annyeong, "hwpx"%string)).
Proof.
  pose proof (extract_text_hwpx_first hwpx_world sample_unicode sample_codecs "doc.hwpx"
                (zip_signature ++ [0x14; 0x00; 0x00; 0x00]) hwpx_archive
                eq_refl eq_refl eq_refl) as [A B].
  split.
  - apply (A [[SP] ++ annyeong ++ [SP]]); try reflexivity; discriminate.
  - apply (B (str_of "Contents/Section0.xml") section0_xml [[0x70]] annyeong
             [[0x2F; 0x70]]).
    + reflexivity.
    + reflexivity.
    + vm_compute. reflexivity.
    + repeat constructor; discriminate.
    + repeat constructor; discriminate.
    + reflexivity.
    + vm_compute. discriminate.
Defined.

(** * Rounding is monotone *)

Lemma pow2_Qpower k : (pow2 k == 2 ^ k)%Q.
Proof.
  unfold pow2. destruct (0 <=? k) eqn:E.
  - apply Z.leb_le in E. apply (Zpower_Qpower 2 k E).
  - apply Z.leb_gt in E.
    assert (Hk : k = - (- k)) by lia. rewrite Hk at 2.
    rewrite Qpower_opp. rewrite <- (Zpower_Qpower 2 (- k)) by lia.
    pose proof (Z.pow_pos_nonneg 2 (- k)) as Hp.
    destruct (2 ^ (- k)) as [|p|p] eqn:Ep; try lia. reflexivity.
Qed.

Lemma pow2_add a b : (pow2 (a + b) == pow2 a * pow2 b)%Q.
Proof. rewrite !pow2_Qpower. apply Qpower_plus. discriminate. Qed.

Lemma pow2_nat n : 0 <= n -> pow2 n = inject_Z (2 ^ n).
Proof. intros H. unfold pow2. apply Z.leb_le in H. rewrite H. reflexivity. Qed.

Lemma pow2_ge_one n : 0 <= n -> (1 <= pow2 n)%Q.
Proof.
  intros H. rewrite pow2_nat by assumption. unfold Qle. cbn [Qnum Qden inject_Z].
  pose proof (Z.pow_pos_nonneg 2 n). lia.
Qed.

Lemma pow2_le a b : a <= b -> (pow2 a <= pow2 b)%Q.
Proof.
  intros H. replace b with (a + (b - a)) by lia. rewrite pow2_add.
  rewrite <- (Qmult_1_r (pow2 a)) at 1.
  apply Qmult_le_l; [apply pow2_pos|]. apply pow2_ge_one. lia.
Qed.

Lemma pow2_lt_inv a b : (pow2 a < pow2 b)%Q -> a < b.
Proof.
  intros H. destruct (Z_lt_le_dec a b) as [L|L]; [exact L|].
  apply pow2_le in L. apply Qle_not_lt in L. contradiction.
Qed.

Lemma pow2_quotient a b :
  0 <= a -> 0 <= b -> (pow2 (a - b) == 2 ^ a # Z.to_pos (2 ^ b))%Q.
Proof.
  intros Ha Hb. replace (a - b) with (a + - b) by lia. rewrite pow2_add.
  rewrite (pow2_nat a Ha).
  assert (E : (pow2 (- b) == 1 # Z.to_pos (2 ^ b))%Q).
  { unfold pow2. destruct (0 <=? - b) eqn:E.
    - apply Z.leb_le in E. assert (b = 0) as -> by lia. reflexivity.
    - rewrite Z.opp_involutive. reflexivity. }
  rewrite E. unfold Qeq, Qmult. cbn [Qnum Qden inject_Z]. lia.
Qed.

(** [float_exponent] finds the binade of a positive number. *)
Lemma float_exponent_spec x :
  0 < Qnum x ->
  (pow2 (float_exponent x) <= x)%Q /\ (x < pow2 (float_exponent x + 1))%Q.
Proof.
  intros Hx. destruct x as [n d]. cbn [Qnum] in Hx.
  pose proof (Z.log2_spec n Hx) as [Hn1 Hn2].
  pose proof (Z.log2_spec (Z.pos d) (Pos2Z.is_pos d)) as [Hd1 Hd2].
  pose proof (Z.log2_nonneg n) as Ha. pose proof (Z.log2_nonneg (Z.pos d)) as Hb.
  set (a := Z.log2 n) in *. set (b := Z.log2 (Z.pos d)) in *.
  assert (L : (pow2 (a - b - 1) <= n # d)%Q).
  { replace (a - b - 1) with (a - (b + 1)) by lia.
    rewrite pow2_quotient by lia. unfold Qle. cbn [Qnum Qden].
    pose proof (Z.pow_pos_nonneg 2 (b + 1)). rewrite Z2Pos.id by lia.
    replace (Z.succ b) with (b + 1) in Hd2 by lia. nia. }
  assert (U : (n # d < pow2 (a - b + 1))%Q).
  { replace (a - b + 1) with (a + 1 - b) by lia.
    rewrite pow2_quotient by lia. unfold Qlt. cbn [Qnum Qden].
    pose proof (Z.pow_pos_nonneg 2 b). rewrite Z2Pos.id by lia.
    replace (Z.succ a) with (a + 1) in Hn2 by lia. nia. }
  unfold float_exponent. cbn [Qnum Qden]. fold a b. cbv zeta.
  destruct (Qltb (n # d) (pow2 (a - b))) eqn:E.
  - apply Qltb_lt in E. split; [exact L|].
    replace (a - b - 1 + 1) with (a - b) by lia. exact E.
  - split; [|exact U]. apply Qnot_lt_le. intros C. apply Qltb_lt in C. congruence.
Qed.

Lemma float_exponent_le x y :
  0 < Qnum x -> (x <= y)%Q -> float_exponent x <= float_exponent y.
Proof.
  intros Hx Hxy.
  assert (Hy : 0 < Qnum y).
  { unfold Qle in Hxy. destruct x as [n d], y as [n' d']. cbn [Qnum Qden] in *. nia. }
  destruct (float_exponent_spec x Hx) as [L _].
  destruct (float_exponent_spec y Hy) as [_ U].
  assert (H : (pow2 (float_exponent x) < pow2 (float_exponent y + 1))%Q).
  { eapply Qle_lt_trans; [exact L|]. eapply Qle_lt_trans; [exact Hxy|exact U]. }
  apply pow2_lt_inv in H. lia.
Qed.

(** ** The nearest integer *)

Lemma nearest_even_le m N : (m <= inject_Z N)%Q -> nearest_even m <= N.
Proof.
  destruct m as [n d]. unfold Qle, nearest_even. cbn [Qnum Qden inject_Z]. intros H.
  pose proof (Z.div_mod n (Z.pos d) ltac:(lia)) as E.
  pose proof (Z.mod_pos_bound n (Z.pos d) ltac:(lia)) as B.
  set (q := n / Z.pos d) in *. set (r := n mod Z.pos d) in *.
  assert (q <= N) by (apply Z.div_le_upper_bound; lia).
  destruct (Z.eq_dec q N) as [Eq|Nq].
  - assert (Hr : r = 0) by nia.
    assert (C : (2 * r ?= Z.pos d) = Lt) by (rewrite Hr; reflexivity).
    rewrite C. lia.
  - destruct (2 * r ?= Z.pos d); [destruct (Z.even q)| |]; lia.
Qed.

Lemma nearest_even_ge m N : (inject_Z N <= m)%Q -> N <= nearest_even m.
Proof.
  destruct m as [n d]. unfold Qle, nearest_even. cbn [Qnum Qden inject_Z]. intros H.
  pose proof (Z.div_mod n (Z.pos d) ltac:(lia)) as E.
  pose proof (Z.mod_pos_bound n (Z.pos d) ltac:(lia)) as B.
  set (q := n / Z.pos d) in *. set (r := n mod Z.pos d) in *.
  assert (N <= q) by (apply Z.div_le_lower_bound; lia).
  destruct (2 * r ?= Z.pos d); [destruct (Z.even q)| |]; lia.
Qed.

Lemma nearest_even_monotone m m' : (m <= m')%Q -> nearest_even m <= nearest_even m'.
Proof.
  destruct m as [n d], m' as [n' d']. unfold Qle, nearest_even.
  cbn [Qnum Qden]. intros H.
  pose proof (Z.div_mod n (Z.pos d) ltac:(lia)) as E.
  pose proof (Z.mod_pos_bound n (Z.pos d) ltac:(lia)) as B.
  pose proof (Z.div_mod n' (Z.pos d') ltac:(lia)) as E'.
  pose proof (Z.mod_pos_bound n' (Z.pos d') ltac:(lia)) as B'.
  set (q := n / Z.pos d) in *. set (r := n mod Z.pos d) in *.
  set (q' := n' / Z.pos d') in *. set (r' := n' mod Z.pos d') in *.
  assert (Hq : q <= q').
  { apply Z.div_le_lower_bound; [lia|].
    apply (Z.mul_le_mono_pos_l _ _ (Z.pos d)); [lia|]. nia. }
  destruct (Z.eq_dec q q') as [Eq|Nq].
  - rewrite <- Eq in *. clear Eq.
    assert (Hr : r * Z.pos d' <= r' * Z.pos d) by nia.
    assert (K : Z.pos d <= 2 * r -> Z.pos d' <= 2 * r').
    { intros K. apply (Z.mul_le_mono_pos_l _ _ (Z.pos d)); [lia|].
      assert (Z.pos d * Z.pos d' <= 2 * r * Z.pos d')
        by (apply Z.mul_le_mono_nonneg_r; lia).
      lia. }
    assert (K' : Z.pos d < 2 * r -> Z.pos d' < 2 * r').
    { intros K'. apply (Z.mul_lt_mono_pos_l (Z.pos d)); [lia|].
      assert (Z.pos d * Z.pos d' < 2 * r * Z.pos d')
        by (apply Z.mul_lt_mono_pos_r; lia).
      lia. }
    destruct (Z.compare_spec (2 * r) (Z.pos d)) as [C|C|C];
      destruct (Z.compare_spec (2 * r') (Z.pos d')) as [C'|C'|C'];
      try (destruct (Z.even q)); lia.
  - assert (q + 1 <= q') by lia.
    destruct (2 * r ?= Z.pos d); destruct (2 * r' ?= Z.pos d');
      try (destruct (Z.even q)); try (destruct (Z.even q')); lia.
Qed.

(** ** Rounding *)

Lemma Qnum_pos_le x y : 0 < Qnum x -> (x <= y)%Q -> 0 < Qnum y.
Proof.
  unfold Qle. destruct x as [n d], y as [n' d']. cbn [Qnum Qden]. intros H1 H2. nia.
Qed.

Lemma round_positive_monotone x y :
  0 < Qnum x -> (x <= y)%Q -> (round_positive x <= round_positive y)%Q.
Proof.
  intros Hx Hxy. pose proof (Qnum_pos_le x y Hx Hxy) as Hy.
  pose proof (float_exponent_le x y Hx Hxy) as He.
  destruct (float_exponent_spec x Hx) as [_ Ux].
  destruct (float_exponent_spec y Hy) as [Ly _].
  unfold round_positive. cbv zeta.
  set (ex := float_exponent x) in *. set (ey := float_exponent y) in *.
  set (kx := Z.max (ex - 52) (- 1074)). set (ky := Z.max (ey - 52) (- 1074)).
  assert (Px : (0 <= pow2 (- kx))%Q) by apply Qlt_le_weak, pow2_pos.
  assert (Py : (0 <= pow2 (- ky))%Q) by apply Qlt_le_weak, pow2_pos.
  destruct (Z.eq_dec kx ky) as [Ek|Nk].
  - rewrite <- Ek. apply Qmult_le_compat_r; [|apply Qlt_le_weak, pow2_pos].
    rewrite <- Zle_Qle. apply nearest_even_monotone.
    apply Qmult_le_compat_r; assumption.
  - assert (Hk : kx < ky) by lia.
    assert (Ey : ky = ey - 52) by lia.
    assert (Hlt : ex + 1 <= ey) by lia.
    apply Qle_trans with (pow2 ey).
    + assert (Hm : (x * pow2 (- kx) <= inject_Z (2 ^ (ey - kx)))%Q).
      { rewrite <- pow2_nat by lia. replace (ey - kx) with (ey + - kx) by lia.
        rewrite pow2_add. apply Qmult_le_compat_r; [|assumption].
        apply Qle_trans with (pow2 (ex + 1)); [apply Qlt_le_weak; exact Ux|].
        apply pow2_le. exact Hlt. }
      apply nearest_even_le in Hm. rewrite Zle_Qle in Hm.
      apply Qle_trans with (inject_Z (2 ^ (ey - kx)) * pow2 kx)%Q.
      * apply Qmult_le_compat_r; [exact Hm|apply Qlt_le_weak, pow2_pos].
      * rewrite <- pow2_nat by lia. rewrite <- pow2_add.
        replace (ey - kx + kx) with ey by lia. apply Qle_refl.
    + assert (Hm : (inject_Z (2 ^ 52) <= y * pow2 (- ky))%Q).
      { rewrite <- pow2_nat by lia. replace 52 with (ey + - ky) by lia.
        rewrite pow2_add. apply Qmult_le_compat_r; assumption. }
      apply nearest_even_ge in Hm. rewrite Zle_Qle in Hm.
      apply Qle_trans with (inject_Z (2 ^ 52) * pow2 ky)%Q.
      * rewrite <- pow2_nat by lia. rewrite <- pow2_add.
        replace (52 + ky) with ey by lia. apply Qle_refl.
      * apply Qmult_le_compat_r; [exact Hm|apply Qlt_le_weak, pow2_pos].
Qed.

(** Rounding keeps the order of numbers that are not negative. *)
Lemma round_float_monotone x y :
  (0 <= x)%Q -> (x <= y)%Q -> (round_float x <= round_float y)%Q.
Proof.
  intros H0 Hxy.
  assert (H0y : (0 <= y)%Q) by (eapply Qle_trans; eassumption).
  unfold round_float at 1. destruct (Qnum x) as [|n|n] eqn:E.
  - apply round_float_nonneg. exact H0y.
  - assert (Hx : 0 < Qnum x) by lia.
    pose proof (Qnum_pos_le x y Hx Hxy) as Hy.
    unfold round_float. destruct (Qnum y) as [|m|m] eqn:E'; try lia.
    apply round_positive_monotone; assumption.
  - unfold Qle in H0. cbn [Qnum Qden] in H0. lia.
Qed.

(** ** Scores *)

Lemma ratio_le a b p q :
  0 <= a -> a * Z.pos q <= p * Z.max 1 b -> (ratio a b <= round_float (p # q))%Q.
Proof.
  intros Ha H. unfold ratio. apply round_float_monotone.
  - unfold Qle. cbn [Qnum Qden]. lia.
  - unfold Qle. cbn [Qnum Qden]. rewrite Z2Pos.id by lia. exact H.
Qed.

Lemma printable_ratio_le_one u txt : (printable_ratio u txt <= 1)%Q.
Proof.
  unfold printable_ratio. destruct txt as [|c t]; [discriminate|].
  apply Qle_trans with (round_float (1 # 1)); [|vm_compute; discriminate].
  pose proof (count_le_length (fun ch => isprintable u ch || mem ch [LF; 0x09]) (c :: t)).
  apply ratio_le; [apply count_nonneg|]. lia.
Qed.

Lemma hangul_ratio_le_half u txt :
  2 * count is_hangul txt <= Z.max 1 (count (isalpha u) txt) ->
  (hangul_ratio u txt <= 1 # 2)%Q.
Proof.
  intros H. unfold hangul_ratio. destruct txt as [|c t]; [discriminate|].
  apply Qle_trans with (round_float (1 # 2)); [|vm_compute; discriminate].
  apply ratio_le; [apply count_nonneg|]. lia.
Qed.

Lemma hangul_ratio_nonneg u txt : (0 <= hangul_ratio u txt)%Q.
Proof.
  unfold hangul_ratio. destruct txt; [apply Qle_refl|]. apply ratio_nonneg, count_nonneg.
Qed.

Lemma printable_ratio_nonneg u txt : (0 <= printable_ratio u txt)%Q.
Proof.
  unfold printable_ratio. destruct txt; [apply Qle_refl|]. apply ratio_nonneg, count_nonneg.
Qed.

(** X18: a score is never negative and the printable share is at most
    one; so a text scores above the float 1.2, the threshold of the
    early return, only if its Hangul syllables are more than half of
    its letters, and in particular only if it has a Hangul syllable. *)
Theorem score_text_early_return (u : UnicodeData) (txt : pystr) :
  (0 <= score_text u txt)%Q
  /\ (printable_ratio u txt <= 1)%Q
  /\ ((float_1_2 < score_text u txt)%Q ->
      Z.max 1 (count (isalpha u) txt) < 2 * count is_hangul txt
      /\ 0 < count is_hangul txt).
Proof.
  split; [apply score_text_nonneg|]. split; [apply printable_ratio_le_one|].
  intros H.
  assert (G : Z.max 1 (count (isalpha u) txt) < 2 * count is_hangul txt); [|split; lia].
  destruct (Z_lt_le_dec (Z.max 1 (count (isalpha u) txt)) (2 * count is_hangul txt))
    as [L|L]; [exact L|exfalso].
  pose proof (hangul_ratio_le_half u txt L) as Hh.
  pose proof (hangul_ratio_nonneg u txt) as Hh0.
  pose proof (printable_ratio_le_one u txt) as Hp.
  pose proof (printable_ratio_nonneg u txt) as Hp0.
  assert (F04 : (0 <= float_0_4)%Q) by (vm_compute; discriminate).
  assert (Hm : (fmul float_0_4 (hangul_ratio u txt)
                <= round_float (float_0_4 * (1 # 2)))%Q).
  { unfold fmul. apply round_float_monotone.
    - apply Qmult_le_0_compat; assumption.
    - rewrite !(Qmult_comm float_0_4). apply Qmult_le_compat_r; assumption. }
  assert (Hm0 : (0 <= fmul float_0_4 (hangul_ratio u txt))%Q).
  { unfold fmul. apply round_float_nonneg. apply Qmult_le_0_compat; assumption. }
  assert (Hs : (score_text u txt
                <= round_float (1 + round_float (float_0_4 * (1 # 2))))%Q).
  { unfold score_text, fadd. apply round_float_monotone.
    - apply (Qplus_le_compat 0 _ 0 _ Hp0 Hm0).
    - apply Qplus_le_compat; assumption. }
  assert (Hc : (round_float (1 + round_float (float_0_4 * (1 # 2))) <= float_1_2)%Q)
    by (vm_compute; discriminate).
  apply (Qlt_not_le _ _ H). eapply Qle_trans; eassumption.
Qed.

Lemma score_text_early_return_sample :
  (float_1_2 < score_text sample_unicode tie_text)%Q
  /\ ~ (12 # 10 < (4 # 5) + (4 # 10) * 1)%Q
  /\ Z.max 1 (count (isalpha sample_unicode) tie_text) < 2 * count is_hangul tie_text
  /\ 0 < count is_hangul tie_text.
Proof.
  assert (H : (float_1_2 < score_text sample_unicode tie_text)%Q)
    by (vm_compute; reflexivity).
  split; [exact H|]. split; [vm_compute; discriminate|].
  apply (proj2 (proj2 (score_text_early_return sample_unicode tie_text)) H).
Defined.
